(** * Sunfyre front end: the tokenizer and the expression node model

    A shallow embedding of the hand-written lexer ([lexer_tokenize_text] and
    the scanning routines it dispatches to) and of the expression node
    factories of [cci/ast/expr.hpp], together with the properties the
    specification states about them.

    Conventions of the embedding.
    - The source buffer is a [list ascii]; a [const char*] into it is the
      [nat] offset from [text.begin()], so [end] is [length buf] and the
      pointer one past it is [S (length buf)].
    - Dereferencing an offset outside the buffer is undefined behaviour in
      the source; here it is the fault [OutOfBounds].  [assert] and
      [optional::value] faults are kept apart from it.
    - The [while] loop of [lexer_tokenize_text] has no structural measure
      (an iteration may leave the cursor where it was), so it is run with a
      fuel that counts loop bodies. *)

From Stdlib Require Import List String Ascii NArith Arith Bool Lia.
Import ListNotations.

Local Open Scope char_scope.
Local Open Scope nat_scope.

(** ** Faults and the error monad the scanner runs in *)

Inductive fault : Type :=
| OutOfBounds          (* read through a pointer outside the buffer *)
| InvalidRange         (* iterator range with first past last *)
| AssertionFailed      (* assert(cond) with cond false *)
| BadOptionalAccess    (* optional::value() on nullopt *)
| InvalidPrecondition. (* cci_expects(cond) with cond false *)

Inductive result (A : Type) : Type :=
| Ok (a : A)
| Fail (f : fault).

Arguments Ok {A} a.
Arguments Fail {A} f.

Definition bind {A B : Type} (r : result A) (k : A -> result B) : result B :=
  match r with
  | Ok a => k a
  | Fail f => Fail f
  end.

Notation "x <- e ;; k" := (bind e (fun x => k))
  (at level 61, e at next level, right associativity).
Notation "' p <- e ;; k" := (bind e (fun p => k))
  (at level 61, p pattern, e at next level, right associativity).

Definition assert (cond : bool) : result unit :=
  if cond then Ok tt else Fail AssertionFailed.

Definition value {A : Type} (o : option A) : result A :=
  match o with
  | Some a => Ok a
  | None => Fail BadOptionalAccess
  end.

Module Lexer.

(** ** Token model *)

(** Modelled from the spec: the enumeration [TokenType] is declared in
    lexer.hpp, which is not part of the sources at hand.  Its members are
    the kinds the two tables and the scanning routines name. *)
Inductive TokenType : Type :=
| Increment | Decrement | RightArrow | Assign | Plus | Minus | Times
| Divide | Percent | PlusAssign | MinusAssign | TimesAssign | DivideAssign
| ModuloAssign | GreaterThan | LessThan | GreaterEqual | LessEqual
| EqualsTo | NotEqualTo | LogicalNot | LogicalAnd | LogicalOr
| BitwiseNot | BitwiseAnd | BitwiseOr | BitwiseXor | BitwiseAndAssign
| BitwiseOrAssign | BitwiseXorAssign | BitwiseRightShift | BitwiseLeftShift
| BitwiseRightShiftAssign | BitwiseLeftShiftAssign
| LeftParen | RightParen | LeftBraces | RightBraces | LeftCurlyBraces
| RightCurlyBraces | StringMark | CharMark | Dot | Comma | Colon
| Semicolon | QuestionMark
| If | Else | For | While | Do | Typedef | Break | Case | Continue
| Default | Enum | Extern | Goto | Inline | Register | Restrict | Return
| Sizeof | Static | Auto | Struct | Switch | Union
| CharType | ShortType | IntType | LongType | FloatType | DoubleType
| VoidType | Signed | Unsigned | Volatile | Const
| Identifier | IntegerConstant | FloatConstant | CharConstant
| StringConstant.

(** A [string_view] into the source buffer: the offset of its first byte
    and its length. *)
Record string_view : Type := mk_string_view { sv_data : nat; sv_size : nat }.

Definition sv_begin (v : string_view) : nat := sv_data v.
Definition sv_end (v : string_view) : nat := sv_data v + sv_size v.

(** Modelled from the spec: the struct [TokenData] is declared in lexer.hpp,
    which is not part of the sources at hand; a token is its kind and its
    byte span into the source buffer. *)
Record TokenData : Type := mk_token { tok_type : TokenType; tok_data : string_view }.

(** The double-quote character. *)
Definition dquote : ascii := "034".

Definition TOKEN_SYMBOLS : list (TokenType * string) :=
  [ (Increment, "++"%string); (Decrement, "--"%string);
    (RightArrow, "->"%string); (Assign, "="%string); (Plus, "+"%string);
    (Minus, "-"%string); (Times, "*"%string); (Divide, "/"%string);
    (Percent, "%"%string); (PlusAssign, "+="%string);
    (MinusAssign, "-="%string); (TimesAssign, "*="%string);
    (DivideAssign, "/="%string); (ModuloAssign, "%="%string);
    (GreaterThan, ">"%string); (LessThan, "<"%string);
    (GreaterEqual, ">="%string); (LessEqual, "<="%string);
    (EqualsTo, "=="%string); (NotEqualTo, "!="%string);
    (LogicalNot, "!"%string); (LogicalAnd, "&&"%string);
    (LogicalOr, "||"%string);
    (BitwiseNot, "~"%string); (BitwiseAnd, "&"%string);
    (BitwiseOr, "|"%string); (BitwiseXor, "^"%string);
    (BitwiseAndAssign, "&="%string); (BitwiseOrAssign, "|="%string);
    (BitwiseXorAssign, "^="%string); (BitwiseRightShift, ">>"%string);
    (BitwiseLeftShift, "<<"%string);
    (BitwiseRightShiftAssign, ">>="%string);
    (BitwiseLeftShiftAssign, "<<="%string);
    (LeftParen, "("%string); (RightParen, ")"%string);
    (LeftBraces, "["%string); (RightBraces, "]"%string);
    (LeftCurlyBraces, "{"%string); (RightCurlyBraces, "}"%string);
    (StringMark, String dquote EmptyString); (CharMark, "'"%string);
    (Dot, "."%string); (Comma, ","%string); (Colon, ":"%string);
    (Semicolon, ";"%string); (QuestionMark, "?"%string) ].

Definition TOKEN_RESERVED_NAMES : list (TokenType * string) :=
  [ (If, "if"%string); (Else, "else"%string); (For, "for"%string);
    (While, "while"%string); (Do, "do"%string);
    (Typedef, "typedef"%string); (Break, "break"%string);
    (Case, "case"%string); (Continue, "continue"%string);
    (Default, "default"%string); (Enum, "enum"%string);
    (Extern, "extern"%string); (Goto, "goto"%string);
    (Inline, "inline"%string); (Register, "register"%string);
    (Restrict, "restrict"%string); (Return, "return"%string);
    (Sizeof, "sizeof"%string); (Static, "static"%string);
    (Auto, "auto"%string); (Struct, "struct"%string);
    (Switch, "switch"%string); (Union, "union"%string);
    (CharType, "char"%string); (ShortType, "short"%string);
    (IntType, "int"%string); (LongType, "long"%string);
    (FloatType, "float"%string); (DoubleType, "double"%string);
    (VoidType, "void"%string); (Signed, "signed"%string);
    (Unsigned, "unsigned"%string); (Volatile, "volatile"%string);
    (Const, "const"%string) ].

(** ** Character classifier

    [char] values are compared through their code.  Every range test below
    has both ends in 0..127, so a byte of 128..255 fails it whether the
    platform's [char] is signed or not. *)

Definition char_le (a b : ascii) : bool := (N_of_ascii a <=? N_of_ascii b)%N.
Definition char_ge (a b : ascii) : bool := char_le b a.

Definition is_special (c : ascii) : bool :=
  Ascii.eqb c "=" || Ascii.eqb c "+" || Ascii.eqb c "-" || Ascii.eqb c "*" ||
  Ascii.eqb c "/" || Ascii.eqb c "%" || Ascii.eqb c ">" || Ascii.eqb c "<" ||
  Ascii.eqb c "!" || Ascii.eqb c "&" || Ascii.eqb c "|" || Ascii.eqb c "~" ||
  Ascii.eqb c "^" || Ascii.eqb c "(" || Ascii.eqb c ")" || Ascii.eqb c "[" ||
  Ascii.eqb c "]" || Ascii.eqb c "{" || Ascii.eqb c "}" || Ascii.eqb c "," ||
  Ascii.eqb c ":" || Ascii.eqb c ";" || Ascii.eqb c "?".

Definition is_space (c : ascii) : bool :=
  Ascii.eqb c " " || Ascii.eqb c "009".

Definition is_white (c : ascii) : bool := is_space c || is_special c.

Definition is_digit (c : ascii) : bool := char_ge c "0" && char_le c "9".

Definition is_hexdigit (c : ascii) : bool :=
  is_digit c || (char_ge c "A" && char_le c "F")
             || (char_ge c "a" && char_le c "f").

Definition is_octdigit (c : ascii) : bool := char_ge c "0" && char_le c "7".

Definition is_alpha (c : ascii) : bool :=
  (char_ge c "A" && char_le c "Z") || (char_ge c "a" && char_le c "z")
  || Ascii.eqb c "_".

Definition is_alphanum (c : ascii) : bool := is_alpha c || is_digit c.

Definition is_constant (c : ascii) : bool :=
  is_digit c || Ascii.eqb c "'" || Ascii.eqb c dquote.

(** ** Buffer access and the iterator algorithms *)

Definition deref (buf : list ascii) (p : nat) : result ascii :=
  match nth_error buf p with
  | Some c => Ok c
  | None => Fail OutOfBounds
  end.

(** [std::find_if(first, last, pred)], with [n] the distance still to go. *)
Fixpoint find_if_loop (n : nat) (pred : ascii -> bool) (buf : list ascii)
    (first : nat) : result nat :=
  match n with
  | O => Ok first
  | S n' =>
      c <- deref buf first ;;
      if pred c then Ok first else find_if_loop n' pred buf (S first)
  end.

Definition find_if (buf : list ascii) (first last : nat)
    (pred : ascii -> bool) : result nat :=
  if last <? first then Fail InvalidRange
  else find_if_loop (last - first) pred buf first.

Definition find_if_not (buf : list ascii) (first last : nat)
    (pred : ascii -> bool) : result nat :=
  find_if buf first last (fun c => negb (pred c)).

(** [token[i]] *)
Definition sv_at (buf : list ascii) (v : string_view) (i : nat) : result ascii :=
  deref buf (sv_data v + i).

(** The bytes a view denotes, read one by one. *)
Fixpoint read_bytes (n : nat) (buf : list ascii) (p : nat) : result (list ascii) :=
  match n with
  | O => Ok []
  | S n' =>
      c <- deref buf p ;;
      cs <- read_bytes n' buf (S p) ;;
      Ok (c :: cs)
  end.

Definition read_view (buf : list ascii) (v : string_view) : result (list ascii) :=
  read_bytes (sv_size v) buf (sv_data v).

(** [view == name]: equal sizes, then equal bytes. *)
Definition sv_equal (buf : list ascii) (v : string_view) (name : string)
    : result bool :=
  if sv_size v =? String.length name then
    cs <- read_view buf v ;;
    Ok (String.eqb (string_of_list_ascii cs) name)
  else Ok false.

(** [find_next_token(begin, end, pred)] *)
Definition find_next_token_if (buf : list ascii) (begin end_ : nat)
    (pred : ascii -> bool) : result (option string_view) :=
  first <- find_if buf begin end_ pred ;;
  last <- find_if_not buf first end_ pred ;;
  if negb (first =? end_)
  then Ok (Some (mk_string_view first (last - first)))
  else Ok None.

(** [find_next_token(begin, end)] *)
Definition find_next_token (buf : list ascii) (begin end_ : nat)
    : result (option string_view) :=
  find_next_token_if buf begin end_ (fun c => negb (is_white c)).

(** ** The lexer context *)

Record LexerContext : Type := mk_lexer { tokens : list TokenData }.

Definition add_token (type : TokenType) (source : string_view)
    (lexer : LexerContext) : LexerContext :=
  mk_lexer (tokens lexer ++ [mk_token type source]).

(** ** Literal scanning *)

(** The loop that counts the bytes of [token.substr(1, token.size() - 1)]
    that are not a backslash. *)
Fixpoint count_chars (n : nat) (buf : list ascii) (p : nat) (count : nat)
    : result nat :=
  match n with
  | O => Ok count
  | S n' =>
      c <- deref buf p ;;
      if Ascii.eqb c "\" then count_chars n' buf (S p) count
      else count_chars n' buf (S p) (S count)
  end.

Definition lexer_parse_char_literal (lexer : LexerContext) (buf : list ascii)
    (begin end_ : nat) : result (LexerContext * nat) :=
  if begin =? end_ then Ok (lexer, end_)
  else
    first <- find_if buf begin end_ (fun c => Ascii.eqb c "'") ;;
    _ <- assert (negb (first =? end_)) ;;
    last <- find_if buf (S first) end_ (fun c => Ascii.eqb c "'") ;;
    let token := mk_string_view first (S last - first) in
    if sv_end token =? end_ then
      (* missing terminating ' character *)
      p <- find_if buf (sv_begin token) end_ is_white ;;
      Ok (lexer, p)
    else if sv_size token =? 2 then
      (* char literal is empty *)
      Ok (lexer, sv_end token)
    else
      char_size_in_bytes <-
        count_chars (sv_size token - 1) buf (S (sv_data token)) 0 ;;
      (* the multibyte warning is not reported yet *)
      _ <- (if 1 <? char_size_in_bytes then assert true else Ok tt) ;;
      Ok (add_token CharConstant token lexer, sv_end token).

Definition lexer_parse_string_literal (lexer : LexerContext) (buf : list ascii)
    (begin end_ : nat) : result (LexerContext * nat) :=
  if begin =? end_ then Ok (lexer, end_)
  else
    first <- find_if buf begin end_ (fun c => Ascii.eqb c dquote) ;;
    _ <- assert (negb (first =? end_)) ;;
    last <- find_if buf (S first) end_ (fun c => Ascii.eqb c dquote) ;;
    let token := mk_string_view first (S last - first) in
    if sv_end token =? end_ then
      (* missing terminating string mark *)
      p <- find_if buf (sv_begin token) end_ is_white ;;
      Ok (lexer, p)
    else if sv_size token =? 2 then
      (* string literal is empty *)
      Ok (lexer, sv_end token)
    else
      Ok (add_token StringConstant token lexer, sv_end token).

(** ** Numeric constants *)

Fixpoint is_integer_loop (n : nat) (has_hex_prefix : bool) (buf : list ascii)
    (it : nat) : result bool :=
  match n with
  | O => Ok true
  | S n' =>
      c <- deref buf it ;;
      if (if has_hex_prefix then is_hexdigit c else is_digit c)
      then is_integer_loop n' has_hex_prefix buf (S it)
      else if Ascii.eqb c "."
      then Ok false    (* might be a float constant: nothing is reported *)
      else Ok false
  end.

Definition is_integer (buf : list ascii) (it end_ : nat) : result bool :=
  has_hex_prefix <-
    (if 2 <? end_ - it then
       c0 <- deref buf it ;;
       if Ascii.eqb c0 "0" then
         c1 <- deref buf (S it) ;;
         Ok (Ascii.eqb c1 "x" || Ascii.eqb c1 "X")
       else Ok false
     else Ok false) ;;
  let it := if has_hex_prefix then it + 2 else it in
  is_integer_loop (end_ - it) has_hex_prefix buf it.

Fixpoint is_float_loop (n : nat) (dot_it f_suffix_it : nat) (buf : list ascii)
    (it : nat) : result bool :=
  match n with
  | O => Ok true
  | S n' =>
      if (it =? dot_it) || (it =? f_suffix_it)
      then is_float_loop n' dot_it f_suffix_it buf (S it)
      else
        c <- deref buf it ;;
        if is_digit c then is_float_loop n' dot_it f_suffix_it buf (S it)
        else Ok false
  end.

Definition is_float (buf : list ascii) (it end_ : nat) : result bool :=
  dot_it <- find_if buf it end_ (fun c => Ascii.eqb c ".") ;;
  f_suffix_it <-
    find_if buf dot_it end_ (fun c => Ascii.eqb c "f" || Ascii.eqb c "F") ;;
  if negb (f_suffix_it =? end_) && negb (S f_suffix_it =? end_)
  then Ok false
  else is_float_loop (end_ - it) dot_it f_suffix_it buf it.

Definition lexer_parse_constant (lexer : LexerContext) (buf : list ascii)
    (begin end_ : nat) : result (LexerContext * nat) :=
  if begin =? end_ then Ok (lexer, end_)
  else
    opt <- find_next_token buf begin end_ ;;
    token <- value opt ;;
    c0 <- sv_at buf token 0 ;;
    if Ascii.eqb c0 "'" then lexer_parse_char_literal lexer buf begin end_
    else if Ascii.eqb c0 dquote
    then lexer_parse_string_literal lexer buf begin end_
    else
      int <- is_integer buf (sv_begin token) (sv_end token) ;;
      if int then Ok (add_token IntegerConstant token lexer, sv_end token)
      else
        flt <- is_float buf (sv_begin token) (sv_end token) ;;
        if flt then Ok (add_token FloatConstant token lexer, sv_end token)
        else Ok (lexer, sv_end token).

(** ** Identifiers and reserved words *)

Fixpoint is_identifier_loop (n : nat) (buf : list ascii) (it : nat)
    : result bool :=
  match n with
  | O => Ok true
  | S n' =>
      c <- deref buf it ;;
      if is_alphanum c then is_identifier_loop n' buf (S it) else Ok false
  end.

Definition is_identifier (buf : list ascii) (it end_ : nat) : result bool :=
  c0 <- deref buf it ;;
  if negb (is_alpha c0) then Ok false
  else is_identifier_loop (end_ - S it) buf (S it).

(** The range-for over [TOKEN_RESERVED_NAMES]: every entry whose text
    equals the token adds a token and raises [is_reserved]. *)
Fixpoint reserved_loop (names : list (TokenType * string)) (buf : list ascii)
    (token : string_view) (lexer : LexerContext) (is_reserved : bool)
    : result (LexerContext * bool) :=
  match names with
  | [] => Ok (lexer, is_reserved)
  | (name_token, name_str) :: names' =>
      same <- sv_equal buf token name_str ;;
      if same
      then reserved_loop names' buf token (add_token name_token token lexer) true
      else reserved_loop names' buf token lexer is_reserved
  end.

Definition lexer_parse_identifier (lexer : LexerContext) (buf : list ascii)
    (begin end_ : nat) : result (LexerContext * nat) :=
  if begin =? end_ then Ok (lexer, end_)
  else
    opt <- find_next_token_if buf begin end_ is_alphanum ;;
    token <- value opt ;;
    ident <- is_identifier buf (sv_begin token) (sv_end token) ;;
    if ident then
      '(lexer1, is_reserved) <-
        reserved_loop TOKEN_RESERVED_NAMES buf token lexer false ;;
      let lexer2 :=
        if negb is_reserved then add_token Identifier token lexer1
        else lexer1 in
      Ok (lexer2, sv_end token)
    else Ok (lexer, sv_end token).

(** ** The scanning loop *)

(** One body of the [while] loop: [Some] is the context and cursor the next
    iteration starts from, [None] is the [break]. *)
Definition lexer_step (buf : list ascii) (lexer : LexerContext)
    (it end_ : nat) : result (option (LexerContext * nat)) :=
  c <- deref buf it ;;
  if is_constant c then
    r <- lexer_parse_constant lexer buf it end_ ;; Ok (Some r)
  else if is_alphanum c then
    r <- lexer_parse_identifier lexer buf it end_ ;; Ok (Some r)
  else
    opt_token <- find_next_token buf it end_ ;;
    match opt_token with
    | Some tok => Ok (Some (lexer, sv_begin tok))
    | None => Ok None    (* unknown token *)
    end.

Inductive outcome : Type :=
| Finished (toks : list TokenData)  (* the function returned this vector *)
| Faulted (f : fault)               (* undefined behaviour or an abort *)
| OutOfFuel.                        (* the loop is still running *)

Fixpoint tokenize_loop (fuel : nat) (buf : list ascii) (lexer : LexerContext)
    (it end_ : nat) : outcome :=
  if it =? end_ then Finished (tokens lexer)
  else
    match fuel with
    | O => OutOfFuel
    | S fuel' =>
        match lexer_step buf lexer it end_ with
        | Fail f => Faulted f
        | Ok None => Finished (tokens lexer)
        | Ok (Some (lexer', it')) => tokenize_loop fuel' buf lexer' it' end_
        end
    end.

Definition lexer_tokenize_text (fuel : nat) (text : string) : outcome :=
  let buf := list_ascii_of_string text in
  tokenize_loop fuel buf (mk_lexer []) 0 (List.length buf).

(** The call returns [toks]: some number of loop bodies is enough, and
    more fuel never changes the answer. *)
Definition tokenizes_to (text : string) (toks : list TokenData) : Prop :=
  exists n, forall fuel, n <= fuel -> lexer_tokenize_text fuel text = Finished toks.

(** The call hits undefined behaviour or an abort. *)
Definition faults_with (text : string) (f : fault) : Prop :=
  exists n, forall fuel, n <= fuel -> lexer_tokenize_text fuel text = Faulted f.

(** The call never returns. *)
Definition diverges (text : string) : Prop :=
  forall fuel, lexer_tokenize_text fuel text = OutOfFuel.

(** The text a token's span denotes in the source [text]. *)
Definition token_text (text : string) (t : TokenData) : result string :=
  cs <- read_view (list_ascii_of_string text) (tok_data t) ;;
  Ok (string_of_list_ascii cs).

Definition token (type : TokenType) (data size : nat) : TokenData :=
  mk_token type (mk_string_view data size).

(** Tokenizing [text] alone gives exactly one token, of kind [kind], whose
    span reads back as [text]. *)
Definition round_trips (kind : TokenType) (text : string) : Prop :=
  exists t, tokenizes_to text [t] /\ tok_type t = kind /\
            token_text text t = Ok text.

(** [p] is where the maximal alphanumeric run that starts at [it] ends:
    every byte of the run is alphanumeric and the byte after it, if the
    buffer has one, is not. *)
Definition maximal_alphanum_run (buf : list ascii) (it p : nat) : Prop :=
  it < p <= List.length buf /\
  (forall i, it <= i < p ->
     exists c, nth_error buf i = Some c /\ is_alphanum c = true) /\
  (p < List.length buf ->
     exists c, nth_error buf p = Some c /\ is_alphanum c = false).

(** The kind the specification gives a run by exact-text lookup: the kind
    the reserved-word table lists for that text, and [Identifier] when the
    table lists no such text. *)
Definition keyword_or_identifier (run : string) (kind : TokenType) : Prop :=
  In (kind, run) TOKEN_RESERVED_NAMES \/
  (kind = Identifier /\ forall k, ~ In (k, run) TOKEN_RESERVED_NAMES).

(** The kinds a scanning routine ever passes to [add_token]. *)
Definition scanner_kind (k : TokenType) : Prop :=
  k = CharConstant \/ k = StringConstant \/ k = IntegerConstant \/
  k = FloatConstant \/ k = Identifier \/
  In k (map fst TOKEN_RESERVED_NAMES).

(** No string occurs twice in [l]. *)
Fixpoint distinct (l : list string) : bool :=
  match l with
  | [] => true
  | x :: l' => negb (existsb (String.eqb x) l') && distinct l'
  end.

(** [is_token(begin, end, tok)]: the range reads as [tok]. *)
Definition is_token (buf : list ascii) (begin end_ : nat) (tok : string)
    : result bool :=
  sv_equal buf (mk_string_view begin (end_ - begin)) tok.

(** The byte [c] occurs in the text of some entry of [TOKEN_SYMBOLS]. *)
Definition occurs_in_symbols (c : ascii) : bool :=
  existsb (fun e => existsb (Ascii.eqb c) (list_ascii_of_string (snd e)))
          TOKEN_SYMBOLS.

(** A byte none of the three branches of the scanning loop is written
    for: no literal starter, not alphanumeric, not white. *)
Definition unclassified (c : ascii) : bool :=
  negb (is_constant c) && negb (is_alphanum c) && negb (is_white c).

(** What [find_next_token] answers for the range from [b] to [e]: nothing
    when no byte of the range satisfies [pred]; otherwise the first maximal
    run of bytes that satisfy it. *)
Definition next_run (buf : list ascii) (b e : nat) (pred : ascii -> bool)
    (r : option string_view) : Prop :=
  match r with
  | None =>
      forall j, b <= j < e ->
        exists c, nth_error buf j = Some c /\ pred c = false
  | Some tok =>
      b <= sv_data tok /\ sv_data tok < sv_end tok /\ sv_end tok <= e /\
      (forall j, b <= j < sv_data tok ->
         exists c, nth_error buf j = Some c /\ pred c = false) /\
      (forall j, sv_data tok <= j < sv_end tok ->
         exists c, nth_error buf j = Some c /\ pred c = true) /\
      (sv_end tok < e ->
         exists c, nth_error buf (sv_end tok) = Some c /\ pred c = false)
  end.

(** The tokens [toks] lie left to right between [lo] and [hi]: each has a
    span of at least one byte, starts no earlier than the one before it
    ends, and the last ends no later than [hi]. *)
Fixpoint laid_out (lo : nat) (toks : list TokenData) (hi : nat) : Prop :=
  match toks with
  | [] => lo <= hi
  | t :: toks' =>
      lo <= sv_data (tok_data t) /\ 0 < sv_size (tok_data t) /\
      laid_out (sv_end (tok_data t)) toks' hi
  end.

End Lexer.

(** ** Expression node model (namespace cci::ast) *)

Module Ast.

Inductive ExprValueKind : Type := LValue | RValue.

Inductive ExprClass : Type :=
| IntegerLiteral
| CharacterConstant
| StringLiteral
| ParenExpr
| ArraySubscript
| ImplicitCast.

Inductive CharacterConstantKind : Type := CckAscii | CckUTF16 | CckUTF32 | CckWide.

Inductive StringLiteralKind : Type :=
  SkAscii | SkUTF8 | SkUTF16 | SkUTF32 | SkWide.

Inductive CastKind : Type :=
  LValueToRValue | ArrayToPointerDecay | AtomicToNonAtomic.

(** The declarations the node model takes from headers that are not part
    of the sources at hand (cci/ast/type.hpp, cci/syntax/source_map.hpp):
    qualified types with the pointer-type query of [get_as<PointerType>],
    and byte locations with [ByteLoc(n)] and [operator+].  The node model
    is stated over any implementation of them. *)
Class Collaborators : Type := {
  QualType : Type;
  (* ty->get_as<PointerType>() != nullptr *)
  is_pointer_type : QualType -> bool;
  ByteLoc : Type;
  (* syntax::ByteLoc(n) *)
  ByteLoc_of : N -> ByteLoc;
  (* operator+ on byte locations *)
  ByteLoc_plus : ByteLoc -> ByteLoc -> ByteLoc
}.

(** Modelled from the spec: the contract macro [cci_expects] comes from a
    header that is not part of the sources at hand; a violated precondition
    is an internal fault that aborts, never a silent success. *)
Definition cci_expects (cond : bool) : result unit :=
  if cond then Ok tt else Fail InvalidPrecondition.

Definition wrap64 (n : N) : N := (n mod 2 ^ 64)%N.
Definition wrap32 (n : N) : N := (n mod 2 ^ 32)%N.

Section NodeModel.

Context {C : Collaborators}.

(** [syntax::ByteSpan]: the two locations [Expr] reads back as
    [range.start] and [range.end]. *)
Record ByteSpan : Type := mk_ByteSpan { span_start : ByteLoc; span_end : ByteLoc }.

(** The fields of the base [Expr]. *)
Record ExprBase : Type := mk_Expr {
  ec : ExprClass;
  vk : ExprValueKind;
  ty : QualType;
  range : ByteSpan
}.

(** The closed hierarchy under [Expr].  Nodes are immutable once built and
    an [arena_ptr<Expr>] is only ever read through, so a child pointer is
    the child node itself. *)
Inductive Expr : Type :=
| IntegerLiteralNode (hdr : ExprBase) (val : N)
| CharacterConstantNode (hdr : ExprBase) (val : N) (cck : CharacterConstantKind)
| StringLiteralNode (hdr : ExprBase) (str_data : list N) (sk : StringLiteralKind)
    (char_byte_width : N) (tok_locs : list ByteLoc)
| ParenExprNode (hdr : ExprBase) (inner_expr : Expr)
    (lparen_loc rparen_loc : ByteLoc)
| ArraySubscriptExprNode (hdr : ExprBase) (base idx : Expr)
    (lbracket_loc : ByteLoc)
| ImplicitCastExprNode (hdr : ExprBase) (ck : CastKind) (op : Expr).

Definition header (e : Expr) : ExprBase :=
  match e with
  | IntegerLiteralNode h _ => h
  | CharacterConstantNode h _ _ => h
  | StringLiteralNode h _ _ _ _ => h
  | ParenExprNode h _ _ _ => h
  | ArraySubscriptExprNode h _ _ _ => h
  | ImplicitCastExprNode h _ _ => h
  end.

Definition expr_class (e : Expr) : ExprClass := ec (header e).
Definition value_kind (e : Expr) : ExprValueKind := vk (header e).
Definition type (e : Expr) : QualType := ty (header e).
Definition begin_loc (e : Expr) : ByteLoc := span_start (range (header e)).
Definition end_loc (e : Expr) : ByteLoc := span_end (range (header e)).
Definition source_span (e : Expr) : ByteSpan := range (header e).

Definition is_lvalue (e : Expr) : bool :=
  match value_kind e with LValue => true | RValue => false end.
Definition is_rvalue (e : Expr) : bool :=
  match value_kind e with RValue => true | LValue => false end.

(** The factories.  The [ASTContext] argument only says where the node is
    placed and is left out. *)

Definition IntegerLiteral_create (value : N) (ty : QualType)
    (source_span : ByteSpan) : Expr :=
  IntegerLiteralNode (mk_Expr IntegerLiteral RValue ty source_span)
                     (wrap64 value).

Definition CharacterConstant_create (value : N) (cck : CharacterConstantKind)
    (ty : QualType) (source_span : ByteSpan) : Expr :=
  CharacterConstantNode (mk_Expr CharacterConstant RValue ty source_span)
                        (wrap32 value) cck.

Definition StringLiteral_create (ty : QualType) (str_data : list N)
    (sk : StringLiteralKind) (cbw : N) (locs : list ByteLoc)
    (rquote_loc : ByteLoc) : result Expr :=
  _ <- cci_expects (negb (match locs with [] => true | _ => false end)) ;;
  loc0 <- match locs with
          | [] => Fail OutOfBounds
          | l :: _ => Ok l
          end ;;
  Ok (StringLiteralNode
        (mk_Expr StringLiteral LValue ty
                 (mk_ByteSpan loc0 (ByteLoc_plus rquote_loc (ByteLoc_of 1))))
        str_data sk cbw locs).

Definition ParenExpr_create (inner_expr : Expr) (lparen rparen : ByteLoc)
    : Expr :=
  ParenExprNode
    (mk_Expr ParenExpr (value_kind inner_expr) (type inner_expr)
             (mk_ByteSpan lparen (ByteLoc_plus rparen (ByteLoc_of 1))))
    inner_expr lparen rparen.

Definition ArraySubscriptExpr_create (base_expr index_expr : Expr)
    (vk : ExprValueKind) (ty : QualType) (lbracket_loc rbracket_loc : ByteLoc)
    : result Expr :=
  _ <- cci_expects (is_pointer_type (type base_expr)) ;;
  _ <- cci_expects (negb (is_pointer_type (type index_expr))) ;;
  Ok (ArraySubscriptExprNode
        (mk_Expr ArraySubscript vk ty
                 (mk_ByteSpan (begin_loc base_expr)
                              (ByteLoc_plus rbracket_loc (ByteLoc_of 1))))
        base_expr index_expr lbracket_loc).

Definition ImplicitCastExpr_create (vk : ExprValueKind) (ty : QualType)
    (ck : CastKind) (operand : Expr) : Expr :=
  ImplicitCastExprNode (mk_Expr ImplicitCast vk ty (source_span operand))
                       ck operand.

End NodeModel.

(** A small implementation of the collaborators to run the factories on:
    a type is a pointer or not, a location is a byte offset. *)
Inductive ToyType : Type := ToyInt | ToyPointer (pointee : ToyType).

#[local] Instance toy_collaborators : Collaborators := {|
  QualType := ToyType;
  is_pointer_type := fun t => match t with ToyPointer _ => true | ToyInt => false end;
  ByteLoc := N;
  ByteLoc_of := fun n => n;
  ByteLoc_plus := N.add
|}.

Definition toy_span (a b : N) : ByteSpan (C := toy_collaborators) :=
  mk_ByteSpan (C := toy_collaborators) a b.

Definition toy_int_literal : Expr (C := toy_collaborators) :=
  IntegerLiteral_create (C := toy_collaborators) 7 ToyInt (toy_span 12 13).

Definition toy_pointer_operand : Expr (C := toy_collaborators) :=
  ImplicitCastExpr_create (C := toy_collaborators) RValue (ToyPointer ToyInt)
    ArrayToPointerDecay
    (IntegerLiteral_create (C := toy_collaborators) 0 ToyInt (toy_span 10 11)).

(** *** Downcasts and the accessors of the variants *)

Definition ExprClass_eqb (a b : ExprClass) : bool :=
  match a, b with
  | IntegerLiteral, IntegerLiteral
  | CharacterConstant, CharacterConstant
  | StringLiteral, StringLiteral
  | ParenExpr, ParenExpr
  | ArraySubscript, ArraySubscript
  | ImplicitCast, ImplicitCast => true
  | _, _ => false
  end.

(** [T::classof], one per variant. *)
Definition IntegerLiteral_classof (ec : ExprClass) : bool :=
  ExprClass_eqb IntegerLiteral ec.
Definition CharacterConstant_classof (ec : ExprClass) : bool :=
  ExprClass_eqb CharacterConstant ec.
Definition StringLiteral_classof (ec : ExprClass) : bool :=
  ExprClass_eqb StringLiteral ec.
Definition ParenExpr_classof (ec : ExprClass) : bool :=
  ExprClass_eqb ParenExpr ec.
Definition ArraySubscriptExpr_classof (ec : ExprClass) : bool :=
  ExprClass_eqb ArraySubscript ec.
Definition ImplicitCastExpr_classof (ec : ExprClass) : bool :=
  ExprClass_eqb ImplicitCast ec.

Section NodeQueries.

Context {C : Collaborators}.

(** [get_as<T>()]: the node itself, seen as a [T], when [T::classof]
    accepts its tag; [None] stands for the null pointer. *)
Definition get_as (classof : ExprClass -> bool) (e : Expr) : option Expr :=
  if classof (expr_class e) then Some e else None.

(** The accessors of the variants; each reads a node of its own variant. *)
Definition value (e : Expr) : option N :=
  match e with IntegerLiteralNode _ v => Some v | _ => None end.

Definition char_value (e : Expr) : option N :=
  match e with CharacterConstantNode _ v _ => Some v | _ => None end.

Definition char_kind (e : Expr) : option CharacterConstantKind :=
  match e with CharacterConstantNode _ _ k => Some k | _ => None end.

Definition str_kind (e : Expr) : option StringLiteralKind :=
  match e with StringLiteralNode _ _ k _ _ => Some k | _ => None end.

Definition byte_length (e : Expr) : option N :=
  match e with
  | StringLiteralNode _ d _ _ _ => Some (N.of_nat (List.length d))
  | _ => None
  end.

(** [string_as_utf8]: the bytes, under [cci_expects(char_byte_width == 1)]. *)
Definition string_as_utf8 (e : Expr) : option (result (list N)) :=
  match e with
  | StringLiteralNode _ d _ w _ =>
      Some (_ <- cci_expects (N.eqb w 1) ;; Ok d)
  | _ => None
  end.

Definition sub_expr (e : Expr) : option Expr :=
  match e with ParenExprNode _ i _ _ => Some i | _ => None end.
Definition open_paren_loc (e : Expr) : option ByteLoc :=
  match e with ParenExprNode _ _ l _ => Some l | _ => None end.
Definition close_paren_loc (e : Expr) : option ByteLoc :=
  match e with ParenExprNode _ _ _ r => Some r | _ => None end.

Definition base_expr (e : Expr) : option Expr :=
  match e with ArraySubscriptExprNode _ b _ _ => Some b | _ => None end.
Definition index_expr (e : Expr) : option Expr :=
  match e with ArraySubscriptExprNode _ _ i _ => Some i | _ => None end.
Definition open_bracket_loc (e : Expr) : option ByteLoc :=
  match e with ArraySubscriptExprNode _ _ _ l => Some l | _ => None end.

Definition cast_kind (e : Expr) : option CastKind :=
  match e with ImplicitCastExprNode _ k _ => Some k | _ => None end.
Definition operand_expr (e : Expr) : option Expr :=
  match e with ImplicitCastExprNode _ _ o => Some o | _ => None end.

(** [e] wrapped in the parentheses of [parens], innermost pair first. *)
Fixpoint parenthesize (parens : list (ByteLoc * ByteLoc)) (e : Expr) : Expr :=
  match parens with
  | [] => e
  | (l, r) :: parens' => parenthesize parens' (ParenExpr_create e l r)
  end.

(** [e] under the implicit casts of [casts], innermost cast first. *)
Fixpoint implicit_casts (casts : list (ExprValueKind * QualType * CastKind))
    (e : Expr) : Expr :=
  match casts with
  | [] => e
  | (vk, ty, ck) :: casts' =>
      implicit_casts casts' (ImplicitCastExpr_create vk ty ck e)
  end.

(** The variants with their [classof]. *)
Definition variant_classofs : list (ExprClass * (ExprClass -> bool)) :=
  [ (IntegerLiteral, IntegerLiteral_classof);
    (CharacterConstant, CharacterConstant_classof);
    (StringLiteral, StringLiteral_classof);
    (ParenExpr, ParenExpr_classof);
    (ArraySubscript, ArraySubscriptExpr_classof);
    (ImplicitCast, ImplicitCastExpr_classof) ].

(** [get_as] gives [e] back for the variant [tag] and the null pointer for
    every other variant. *)
Definition downcasts_only_to (tag : ExprClass) (e : Expr) : Prop :=
  forall tag' classof,
    In (tag', classof) variant_classofs ->
    get_as classof e = if ExprClass_eqb tag' tag then Some e else None.

End NodeQueries.

End Ast.

(** * Properties of the tokenizer *)

Module LexerFacts.

Import Lexer.

Local Open Scope string_scope.
Local Open Scope list_scope.
Local Open Scope nat_scope.

(** ** Fuel *)

Lemma tokenize_loop_more_fuel :
  forall n buf lexer it e,
    tokenize_loop n buf lexer it e <> OutOfFuel ->
    forall m, n <= m ->
    tokenize_loop m buf lexer it e = tokenize_loop n buf lexer it e.
Proof.
  induction n as [|n IH]; intros buf lexer it e Hn m Hle.
  - simpl in *. destruct m; simpl; destruct (it =? e); congruence.
  - destruct m as [|m]; [lia|].
    simpl in *. destruct (it =? e); [reflexivity|].
    destruct (lexer_step buf lexer it e) as [[[lexer' it']|]|f]; try reflexivity.
    apply IH; [assumption|lia].
Qed.

Lemma tokenize_loop_body :
  forall fuel buf lexer it e lexer' it',
    (it =? e) = false ->
    lexer_step buf lexer it e = Ok (Some (lexer', it')) ->
    tokenize_loop (S fuel) buf lexer it e = tokenize_loop fuel buf lexer' it' e.
Proof.
  intros fuel buf lexer it e lexer' it' Hne Hstep.
  simpl. rewrite Hne, Hstep. reflexivity.
Qed.

Lemma finished_with :
  forall n text toks,
    lexer_tokenize_text n text = Finished toks -> tokenizes_to text toks.
Proof.
  intros n text toks Hrun. exists n. intros fuel Hle.
  unfold lexer_tokenize_text in *.
  rewrite (tokenize_loop_more_fuel n); [assumption|congruence|assumption].
Qed.

Lemma faulted_with :
  forall n text f,
    lexer_tokenize_text n text = Faulted f -> faults_with text f.
Proof.
  intros n text f Hrun. exists n. intros fuel Hle.
  unfold lexer_tokenize_text in *.
  rewrite (tokenize_loop_more_fuel n); [assumption|congruence|assumption].
Qed.

Lemma tokenizes_to_functional :
  forall text toks toks',
    tokenizes_to text toks -> tokenizes_to text toks' -> toks = toks'.
Proof.
  intros text toks toks' [n Hn] [m Hm].
  specialize (Hn (n + m) ltac:(lia)). specialize (Hm (n + m) ltac:(lia)).
  congruence.
Qed.

Lemma tokenizes_to_not_diverges :
  forall text toks, tokenizes_to text toks -> ~ diverges text.
Proof.
  intros text toks [n Hn] Hd. specialize (Hn n (le_n n)).
  rewrite (Hd n) in Hn. discriminate.
Qed.

Lemma faults_not_tokenizes :
  forall text f toks, faults_with text f -> ~ tokenizes_to text toks.
Proof.
  intros text f toks [n Hn] [m Hm].
  specialize (Hn (n + m) ltac:(lia)). specialize (Hm (n + m) ltac:(lia)).
  congruence.
Qed.

(** Run the scanner on a closed input with [n] loop bodies. *)
Ltac run_lexer n := apply (finished_with n); vm_compute; reflexivity.

(** ** Reads inside the buffer *)

Lemma deref_inside :
  forall buf p, p < List.length buf ->
    exists c, nth_error buf p = Some c /\ deref buf p = Ok c.
Proof.
  intros buf p Hp. unfold deref.
  destruct (nth_error buf p) as [c|] eqn:E.
  - exists c. split; reflexivity.
  - apply nth_error_None in E. lia.
Qed.

Lemma deref_outside :
  forall buf p, List.length buf <= p -> deref buf p = Fail OutOfBounds.
Proof.
  intros buf p Hp. unfold deref.
  apply nth_error_None in Hp. rewrite Hp. reflexivity.
Qed.

(** [find_if] over a range inside the buffer stops at the first byte that
    satisfies the predicate, or at [last]. *)
Lemma find_if_loop_inside :
  forall n pred buf first,
    first + n <= List.length buf ->
    exists p,
      find_if_loop n pred buf first = Ok p /\
      first <= p <= first + n /\
      (forall i, first <= i < p ->
         exists c, nth_error buf i = Some c /\ pred c = false) /\
      (p < first + n -> exists c, nth_error buf p = Some c /\ pred c = true).
Proof.
  induction n as [|n IH]; intros pred buf first Hin.
  - exists first. simpl. repeat split; try lia; intros; lia.
  - simpl.
    destruct (deref_inside buf first) as [c [Hc Hd]]; [lia|].
    rewrite Hd. simpl.
    destruct (pred c) eqn:Hp.
    + exists first. repeat split; try lia; intros; try lia.
      exists c. split; assumption.
    + destruct (IH pred buf (S first)) as [p [Hrun [Hrange [Hbefore Hat]]]];
        [lia|].
      exists p. repeat split; try lia; try assumption.
      * intros i Hi.
        destruct (Nat.eq_dec i first) as [->|Hne].
        -- exists c. split; assumption.
        -- apply Hbefore. lia.
      * intros Hlt. apply Hat. lia.
Qed.

Lemma find_if_inside :
  forall buf first last pred,
    first <= last -> last <= List.length buf ->
    exists p,
      find_if buf first last pred = Ok p /\
      first <= p <= last /\
      (forall i, first <= i < p ->
         exists c, nth_error buf i = Some c /\ pred c = false) /\
      (p < last -> exists c, nth_error buf p = Some c /\ pred c = true).
Proof.
  intros buf first last pred Hle Hin. unfold find_if.
  destruct (last <? first) eqn:E; [apply Nat.ltb_lt in E; lia|].
  destruct (find_if_loop_inside (last - first) pred buf first)
    as [p [Hrun [Hrange [Hbefore Hat]]]]; [lia|].
  exists p. repeat split; try lia; try assumption.
  intros Hlt. apply Hat. lia.
Qed.

(** A range that starts on a byte satisfying the predicate is found there. *)
Lemma find_if_here :
  forall buf first last pred c,
    first < last -> nth_error buf first = Some c -> pred c = true ->
    find_if buf first last pred = Ok first.
Proof.
  intros buf first last pred c Hlt Hc Hp. unfold find_if.
  destruct (last <? first) eqn:E; [apply Nat.ltb_lt in E; lia|].
  destruct (last - first) as [|n] eqn:En; [lia|].
  simpl. unfold deref. rewrite Hc. simpl. rewrite Hp. reflexivity.
Qed.

(** ** The scanning loop on a byte no branch handles *)

(** On a byte that is no literal starter, not alphanumeric and not white,
    the third branch finds the next non-white run at the cursor itself and
    assigns the cursor to where it already is. *)
Lemma lexer_step_stalls :
  forall buf lexer it c,
    nth_error buf it = Some c ->
    is_constant c = false -> is_alphanum c = false -> is_white c = false ->
    lexer_step buf lexer it (List.length buf) = Ok (Some (lexer, it)).
Proof.
  intros buf lexer it c Hc Hconst Halnum Hwhite.
  assert (Hlt : it < List.length buf) by (apply nth_error_Some; congruence).
  unfold lexer_step, deref. rewrite Hc. simpl. rewrite Hconst, Halnum.
  unfold find_next_token, find_next_token_if.
  rewrite (find_if_here buf it (List.length buf) _ c Hlt Hc);
    [|rewrite Hwhite; reflexivity].
  simpl. unfold find_if_not.
  destruct (find_if_inside buf it (List.length buf)
              (fun c0 => negb (negb (is_white c0)))) as [p [Hp _]]; try lia.
  rewrite Hp. simpl.
  destruct (it =? List.length buf) eqn:E; [apply Nat.eqb_eq in E; lia|].
  reflexivity.
Qed.

Lemma tokenize_loop_stalls :
  forall fuel buf lexer it c,
    nth_error buf it = Some c ->
    is_constant c = false -> is_alphanum c = false -> is_white c = false ->
    tokenize_loop fuel buf lexer it (List.length buf) = OutOfFuel.
Proof.
  induction fuel as [|fuel IH]; intros buf lexer it c Hc Hconst Halnum Hwhite;
    assert (Hlt : it < List.length buf) by (apply nth_error_Some; congruence);
    simpl;
    (destruct (it =? List.length buf) eqn:E; [apply Nat.eqb_eq in E; lia|]).
  - reflexivity.
  - rewrite (lexer_step_stalls buf lexer it c Hc Hconst Halnum Hwhite).
    apply (IH buf lexer it c); assumption.
Qed.

(** ** Views inside the buffer and the reserved-word lookup *)

Lemma read_bytes_inside :
  forall n buf p,
    p + n <= List.length buf ->
    exists cs, read_bytes n buf p = Ok cs /\ List.length cs = n.
Proof.
  induction n as [|n IH]; intros buf p Hin.
  - exists []. split; reflexivity.
  - simpl.
    destruct (deref_inside buf p) as [c [_ Hd]]; [lia|].
    destruct (IH buf (S p)) as [cs [Hcs Hlen]]; [lia|].
    rewrite Hd. simpl. rewrite Hcs. simpl.
    exists (c :: cs). split; [reflexivity|simpl; lia].
Qed.

Lemma length_string_of_list_ascii :
  forall cs, String.length (string_of_list_ascii cs) = List.length cs.
Proof.
  induction cs as [|c cs IH]; simpl; [reflexivity|now rewrite IH].
Qed.

(** [token == name] compares the text the view denotes with the name. *)
Lemma sv_equal_inside :
  forall buf v cs name,
    read_view buf v = Ok cs -> List.length cs = sv_size v ->
    sv_equal buf v name = Ok (String.eqb (string_of_list_ascii cs) name).
Proof.
  intros buf v cs name Hread Hlen. unfold sv_equal. rewrite Hread. simpl.
  destruct (sv_size v =? String.length name) eqn:E; [reflexivity|].
  apply Nat.eqb_neq in E.
  destruct (String.eqb_spec (string_of_list_ascii cs) name) as [Heq|Hne];
    [|reflexivity].
  exfalso. apply E. rewrite <- Heq, length_string_of_list_ascii. lia.
Qed.

Lemma distinct_NoDup : forall l, distinct l = true -> NoDup l.
Proof.
  induction l as [|x l IH]; intros Hd; [constructor|].
  simpl in Hd. apply andb_true_iff in Hd. destruct Hd as [Hx Hl].
  constructor; [|apply IH; assumption].
  intros Hin. apply negb_true_iff in Hx.
  assert (Hex : existsb (String.eqb x) l = true).
  { apply existsb_exists. exists x. split; [assumption|apply String.eqb_refl]. }
  congruence.
Qed.

Lemma reserved_names_distinct : NoDup (map snd TOKEN_RESERVED_NAMES).
Proof. apply distinct_NoDup. vm_compute. reflexivity. Qed.

(** The range-for over a table of distinct names adds the one entry whose
    text is the token's, or nothing. *)
Lemma reserved_loop_spec :
  forall names buf v cs,
    read_view buf v = Ok cs -> List.length cs = sv_size v ->
    NoDup (map snd names) ->
    forall lexer flag,
      (forall k, In (k, string_of_list_ascii cs) names ->
         reserved_loop names buf v lexer flag = Ok (add_token k v lexer, true)) /\
      ((forall k, ~ In (k, string_of_list_ascii cs) names) ->
         reserved_loop names buf v lexer flag = Ok (lexer, flag)).
Proof.
  induction names as [|[k0 s0] names IH];
    intros buf v cs Hread Hlen Hnd lexer flag.
  - split; [intros k []|reflexivity].
  - inversion Hnd as [|x l Hnotin Hnd']; subst. simpl in Hnotin.
    simpl. rewrite (sv_equal_inside buf v cs s0 Hread Hlen). simpl.
    destruct (String.eqb_spec (string_of_list_ascii cs) s0) as [Heq|Hne].
    + assert (Hnone : forall k, ~ In (k, string_of_list_ascii cs) names).
      { intros k Hin. apply Hnotin. rewrite <- Heq.
        apply (in_map snd) in Hin. exact Hin. }
      split.
      * intros k [Hhd|Htl].
        -- injection Hhd as -> _.
           apply (proj2 (IH buf v cs Hread Hlen Hnd' _ true) Hnone).
        -- exfalso. exact (Hnone k Htl).
      * intros Hno. exfalso. apply (Hno k0). left. rewrite Heq. reflexivity.
    + split.
      * intros k [Hhd|Htl].
        -- injection Hhd as _ Hs. congruence.
        -- apply (proj1 (IH buf v cs Hread Hlen Hnd' lexer flag) k Htl).
      * intros Hno.
        apply (proj2 (IH buf v cs Hread Hlen Hnd' lexer flag)).
        intros k Hin. apply (Hno k). right. exact Hin.
Qed.

Lemma reserved_or_not :
  forall run,
    (exists k, In (k, run) TOKEN_RESERVED_NAMES) \/
    (forall k, ~ In (k, run) TOKEN_RESERVED_NAMES).
Proof.
  intros run.
  destruct (find (fun e => String.eqb (snd e) run) TOKEN_RESERVED_NAMES)
    as [[k s]|] eqn:E.
  - apply find_some in E. destruct E as [Hin Heq]. simpl in Heq.
    apply String.eqb_eq in Heq. subst s. left. exists k. exact Hin.
  - right. intros k Hin.
    pose proof (find_none _ _ E _ Hin) as Hno. simpl in Hno.
    rewrite String.eqb_refl in Hno. discriminate.
Qed.

Lemma is_identifier_loop_alphanum :
  forall n buf it,
    (forall i, it <= i < it + n ->
       exists c, nth_error buf i = Some c /\ is_alphanum c = true) ->
    is_identifier_loop n buf it = Ok true.
Proof.
  induction n as [|n IH]; intros buf it Hall; [reflexivity|].
  simpl. destruct (Hall it) as [c [Hc Ha]]; [lia|].
  unfold deref. rewrite Hc. simpl. rewrite Ha.
  apply IH. intros i Hi. apply Hall. lia.
Qed.

(** What [lexer_parse_identifier] does when it starts on a letter or an
    underscore: it takes the maximal alphanumeric run from there and adds
    one token for it, of the keyword kind the table gives for exactly that
    text, or [Identifier] when the table has no such text. *)
Lemma lexer_parse_identifier_spec :
  forall lexer buf begin c,
    nth_error buf begin = Some c -> is_alpha c = true ->
    exists p cs kind,
      lexer_parse_identifier lexer buf begin (List.length buf) =
        Ok (add_token kind (mk_string_view begin (p - begin)) lexer, p) /\
      maximal_alphanum_run buf begin p /\
      read_view buf (mk_string_view begin (p - begin)) = Ok cs /\
      keyword_or_identifier (string_of_list_ascii cs) kind.
Proof.
  intros lexer buf begin c Hc Halpha.
  assert (Hlt : begin < List.length buf) by (apply nth_error_Some; congruence).
  assert (Halnum : is_alphanum c = true)
    by (unfold is_alphanum; rewrite Halpha; reflexivity).
  destruct (find_if_inside buf begin (List.length buf)
              (fun c0 => negb (is_alphanum c0)))
    as [p [Hp [Hrange [Hbefore Hat]]]]; try lia.
  assert (Hrun : forall i, begin <= i < p ->
            exists c', nth_error buf i = Some c' /\ is_alphanum c' = true).
  { intros i Hi. destruct (Hbefore i Hi) as [c' [Hc' Hn]].
    exists c'. split; [assumption|]. now apply negb_false_iff in Hn. }
  assert (Hstop : p < List.length buf ->
            exists c', nth_error buf p = Some c' /\ is_alphanum c' = false).
  { intros Hpl. destruct (Hat Hpl) as [c' [Hc' Hn]].
    exists c'. split; [assumption|]. now apply negb_true_iff in Hn. }
  assert (Hbp : begin < p).
  { destruct (Nat.eq_dec p begin) as [->|]; [|lia].
    destruct (Hstop Hlt) as [c' [Hc' Hn]]. congruence. }
  set (tok := mk_string_view begin (p - begin)).
  destruct (read_bytes_inside (p - begin) buf begin) as [cs [Hcs Hlen]];
    [lia|].
  assert (Hread : read_view buf tok = Ok cs) by exact Hcs.
  assert (Hend : sv_end tok = p) by (unfold sv_end, tok; simpl; lia).
  assert (Hparse : forall kind lexer1 flag,
            reserved_loop TOKEN_RESERVED_NAMES buf tok lexer false =
              Ok (lexer1, flag) ->
            (if negb flag then add_token Identifier tok lexer1 else lexer1) =
              add_token kind tok lexer ->
            lexer_parse_identifier lexer buf begin (List.length buf) =
              Ok (add_token kind tok lexer, p)).
  { intros kind lexer1 flag Hloop Hadd.
    unfold lexer_parse_identifier.
    destruct (begin =? List.length buf) eqn:E; [apply Nat.eqb_eq in E; lia|].
    unfold find_next_token_if.
    rewrite (find_if_here buf begin (List.length buf) _ c Hlt Hc Halnum).
    cbn [bind]. unfold find_if_not. rewrite Hp. cbn [bind]. rewrite E.
    cbn [negb bind value]. fold tok. rewrite Hend.
    unfold is_identifier, sv_begin. cbn [tok sv_data].
    unfold deref. rewrite Hc. cbn [bind]. rewrite Halpha. cbn [negb].
    rewrite is_identifier_loop_alphanum.
    - cbn [bind]. rewrite Hloop. cbn [bind]. rewrite Hadd. reflexivity.
    - intros i Hi. apply Hrun. lia. }
  destruct (reserved_or_not (string_of_list_ascii cs)) as [[k Hin]|Hno].
  - exists p, cs, k.
    split; [|split; [repeat split; try lia; assumption|split;
             [assumption|left; assumption]]].
    apply (Hparse k (add_token k tok lexer) true); [|reflexivity].
    apply (proj1 (reserved_loop_spec _ buf tok cs Hread Hlen
                    reserved_names_distinct lexer false) k Hin).
  - exists p, cs, Identifier.
    split; [|split; [repeat split; try lia; assumption|split;
             [assumption|right; split; [reflexivity|assumption]]]].
    apply (Hparse Identifier lexer false); [|reflexivity].
    apply (proj2 (reserved_loop_spec _ buf tok cs Hread Hlen
                    reserved_names_distinct lexer false) Hno).
Qed.

(** ** An unterminated character literal *)

(** The counting loop over a view that ends one byte past the buffer reads
    that byte. *)
Lemma count_chars_overrun :
  forall n buf p count,
    0 < n -> p + n = S (List.length buf) ->
    count_chars n buf p count = Fail OutOfBounds.
Proof.
  induction n as [|n IH]; intros buf p count Hn Hlen; [lia|].
  simpl.
  destruct (Nat.eq_dec p (List.length buf)) as [->|Hne].
  - rewrite deref_outside; [reflexivity|lia].
  - destruct (deref_inside buf p) as [c [_ Hd]]; [lia|].
    rewrite Hd. simpl.
    destruct (Ascii.eqb c "\"%char); apply IH; lia.
Qed.

(** ** The kinds of the emitted tokens *)

(** Take apart a successful run of monadic code in hypothesis [H]. *)
Ltac invert_run H :=
  repeat match type of H with
    | bind ?e _ = Ok _ =>
        let E := fresh "E" in
        destruct e eqn:E; cbn [bind] in H; [|discriminate H]
    | (if ?b then _ else _) = Ok _ => destruct b
    | (let '(_, _) := ?x in _) = Ok _ => destruct x
    | Ok _ = Ok _ => injection H; clear H; intros; subst
    | Fail _ = Ok _ => discriminate H
    end.

Definition scanner_kinds (lexer : LexerContext) : Prop :=
  Forall (fun t => scanner_kind (tok_type t)) (tokens lexer).

Lemma add_token_scanner_kinds :
  forall k v lexer,
    scanner_kind k -> scanner_kinds lexer -> scanner_kinds (add_token k v lexer).
Proof.
  intros k v lexer Hk Hl. unfold scanner_kinds, add_token. cbn [tokens].
  apply Forall_app. split; [exact Hl|].
  constructor; [exact Hk|constructor].
Qed.

Lemma reserved_loop_scanner_kinds :
  forall names buf tok lexer flag lexer' flag',
    (forall k s, In (k, s) names -> scanner_kind k) ->
    reserved_loop names buf tok lexer flag = Ok (lexer', flag') ->
    scanner_kinds lexer -> scanner_kinds lexer'.
Proof.
  induction names as [|[k0 s0] names IH];
    intros buf tok lexer flag lexer' flag' Hnames Hrun Hl.
  - cbn [reserved_loop] in Hrun. injection Hrun as <- _. exact Hl.
  - cbn [reserved_loop] in Hrun.
    destruct (sv_equal buf tok s0) as [[|]|f] eqn:E; cbn [bind] in Hrun;
      [| |discriminate Hrun].
    + apply (IH _ _ _ _ _ _ (fun k s H => Hnames k s (or_intror H)) Hrun).
      apply add_token_scanner_kinds; [|exact Hl].
      apply (Hnames k0 s0). left. reflexivity.
    + apply (IH _ _ _ _ _ _ (fun k s H => Hnames k s (or_intror H)) Hrun Hl).
Qed.

Lemma lexer_parse_char_literal_scanner_kinds :
  forall lexer buf b e lexer' p,
    lexer_parse_char_literal lexer buf b e = Ok (lexer', p) ->
    scanner_kinds lexer -> scanner_kinds lexer'.
Proof.
  intros lexer buf b e lexer' p Hrun Hl.
  unfold lexer_parse_char_literal in Hrun. invert_run Hrun; try exact Hl.
  apply add_token_scanner_kinds; [|exact Hl]. left. reflexivity.
Qed.

Lemma lexer_parse_string_literal_scanner_kinds :
  forall lexer buf b e lexer' p,
    lexer_parse_string_literal lexer buf b e = Ok (lexer', p) ->
    scanner_kinds lexer -> scanner_kinds lexer'.
Proof.
  intros lexer buf b e lexer' p Hrun Hl.
  unfold lexer_parse_string_literal in Hrun. invert_run Hrun; try exact Hl.
  apply add_token_scanner_kinds; [|exact Hl]. right. left. reflexivity.
Qed.

Lemma lexer_parse_constant_scanner_kinds :
  forall lexer buf b e lexer' p,
    lexer_parse_constant lexer buf b e = Ok (lexer', p) ->
    scanner_kinds lexer -> scanner_kinds lexer'.
Proof.
  intros lexer buf b e lexer' p Hrun Hl.
  unfold lexer_parse_constant in Hrun.
  destruct (b =? e); [injection Hrun as <- _; exact Hl|].
  destruct (find_next_token buf b e) as [opt|f]; cbn [bind] in Hrun;
    [|discriminate Hrun].
  destruct (value opt) as [tok|f]; cbn [bind] in Hrun; [|discriminate Hrun].
  destruct (sv_at buf tok 0) as [c0|f]; cbn [bind] in Hrun;
    [|discriminate Hrun].
  destruct (Ascii.eqb c0 "'"%char).
  { exact (lexer_parse_char_literal_scanner_kinds _ _ _ _ _ _ Hrun Hl). }
  destruct (Ascii.eqb c0 dquote).
  { exact (lexer_parse_string_literal_scanner_kinds _ _ _ _ _ _ Hrun Hl). }
  invert_run Hrun; try exact Hl;
    (apply add_token_scanner_kinds; [|exact Hl]).
  - right. right. left. reflexivity.
  - right. right. right. left. reflexivity.
Qed.

Lemma lexer_parse_identifier_scanner_kinds :
  forall lexer buf b e lexer' p,
    lexer_parse_identifier lexer buf b e = Ok (lexer', p) ->
    scanner_kinds lexer -> scanner_kinds lexer'.
Proof.
  intros lexer buf b e lexer' p Hrun Hl.
  unfold lexer_parse_identifier in Hrun.
  assert (Hnames : forall k s, In (k, s) TOKEN_RESERVED_NAMES -> scanner_kind k).
  { intros k s H. do 5 right. exact (in_map fst _ _ H). }
  revert Hrun Hnames. generalize TOKEN_RESERVED_NAMES as names.
  intros names Hrun Hnames.
  destruct (b =? e); [injection Hrun as <- _; exact Hl|].
  destruct (find_next_token_if buf b e is_alphanum) as [opt|f];
    cbn [bind] in Hrun; [|discriminate Hrun].
  destruct (value opt) as [tok|f]; cbn [bind] in Hrun; [|discriminate Hrun].
  destruct (is_identifier buf (sv_begin tok) (sv_end tok)) as [[|]|f];
    cbn [bind] in Hrun; [| |discriminate Hrun].
  - destruct (reserved_loop names buf tok lexer false)
      as [[lexer1 flag]|f] eqn:Hloop; cbn [bind] in Hrun; [|discriminate Hrun].
    injection Hrun as <- _.
    assert (H1 : scanner_kinds lexer1).
    { apply (reserved_loop_scanner_kinds _ _ _ _ _ _ _ Hnames Hloop Hl). }
    destruct flag; cbn [negb]; [exact H1|].
    apply add_token_scanner_kinds; [|exact H1].
    do 4 right. left. reflexivity.
  - injection Hrun as <- _. exact Hl.
Qed.

Lemma lexer_step_scanner_kinds :
  forall buf lexer it e lexer' it',
    lexer_step buf lexer it e = Ok (Some (lexer', it')) ->
    scanner_kinds lexer -> scanner_kinds lexer'.
Proof.
  intros buf lexer it e lexer' it' Hrun Hl.
  unfold lexer_step in Hrun.
  destruct (deref buf it) as [c|f]; cbn [bind] in Hrun; [|discriminate Hrun].
  destruct (is_constant c).
  { destruct (lexer_parse_constant lexer buf it e) as [[l1 p1]|f] eqn:E;
      cbn [bind] in Hrun; [|discriminate Hrun].
    injection Hrun as <- _.
    exact (lexer_parse_constant_scanner_kinds _ _ _ _ _ _ E Hl). }
  destruct (is_alphanum c).
  { destruct (lexer_parse_identifier lexer buf it e) as [[l1 p1]|f] eqn:E;
      cbn [bind] in Hrun; [|discriminate Hrun].
    injection Hrun as <- _.
    exact (lexer_parse_identifier_scanner_kinds _ _ _ _ _ _ E Hl). }
  destruct (find_next_token buf it e) as [[tok|]|f]; cbn [bind] in Hrun;
    try discriminate Hrun.
  injection Hrun as <- _. exact Hl.
Qed.

Lemma tokenize_loop_scanner_kinds :
  forall fuel buf lexer it e toks,
    tokenize_loop fuel buf lexer it e = Finished toks ->
    scanner_kinds lexer ->
    Forall (fun t => scanner_kind (tok_type t)) toks.
Proof.
  induction fuel as [|fuel IH]; intros buf lexer it e toks Hrun Hl;
    cbn [tokenize_loop] in Hrun;
    (destruct (it =? e); [injection Hrun as <-; exact Hl|]).
  - discriminate Hrun.
  - destruct (lexer_step buf lexer it e) as [[[lexer' it']|]|f] eqn:E;
      [|injection Hrun as <-; exact Hl|discriminate Hrun].
    apply (IH _ _ _ _ _ Hrun).
    exact (lexer_step_scanner_kinds _ _ _ _ _ _ E Hl).
Qed.

(** No kind of the symbol table is a kind the scanning routines add. *)
Lemma scanner_kind_not_symbol :
  forall k s, In (k, s) TOKEN_SYMBOLS -> ~ scanner_kind k.
Proof.
  intros k s Hin Hk. cbn [TOKEN_SYMBOLS In] in Hin.
  unfold scanner_kind in Hk. cbn [TOKEN_RESERVED_NAMES map fst In] in Hk.
  repeat (destruct Hin as [Hin|Hin];
          [injection Hin as <- _; intuition discriminate|]).
  contradiction.
Qed.

(** X21: whatever the input, a token the tokenizer returns is a literal,
    an identifier or a reserved word: the symbol table is never consulted
    and none of its kinds is ever emitted. *)
Theorem tokenizer_never_emits_symbols :
  forall text toks,
    tokenizes_to text toks ->
    forall t, In t toks ->
      scanner_kind (tok_type t) /\
      forall s, ~ In (tok_type t, s) TOKEN_SYMBOLS.
Proof.
  intros text toks [n Hn] t Hin.
  specialize (Hn n (le_n n)). unfold lexer_tokenize_text in Hn.
  assert (Hall : Forall (fun t0 => scanner_kind (tok_type t0)) toks).
  { apply (tokenize_loop_scanner_kinds _ _ _ _ _ _ Hn). constructor. }
  rewrite Forall_forall in Hall. specialize (Hall t Hin).
  split; [exact Hall|].
  intros s Hs. exact (scanner_kind_not_symbol _ _ Hs Hall).
Qed.

(** ** Claims about whole inputs *)

Ltac solve_round_trip :=
  match goal with
  | |- round_trips ?k ?s =>
      let n := eval vm_compute in (String.length s) in
      exists (token k 0 n);
      split; [run_lexer 1 | split; reflexivity]
  end.

(** C1, as stated, fails: the operator text [++] of the symbol table does
    not come back as one [Increment] token, because tokenizing it gives no
    token at all. *)
Lemma symbol_table_does_not_round_trip :
  ~ (forall k s, In (k, s) (TOKEN_SYMBOLS ++ TOKEN_RESERVED_NAMES) ->
                 round_trips k s).
Proof.
  intros Hall.
  destruct (Hall Increment "++") as [t [Ht _]].
  { simpl. auto. }
  assert (Hnone : tokenizes_to "++" []) by run_lexer 1.
  pose proof (tokenizes_to_functional _ _ _ Ht Hnone) as Heq.
  discriminate Heq.
Qed.

(** C1, amended: every reserved word, tokenized alone, gives exactly one
    token of its kind whose span reads back as the word; every entry of the
    symbol table other than [StringMark], [CharMark] and [Dot], tokenized
    alone, gives the empty token sequence. *)
Theorem reserved_words_round_trip_symbols_yield_nothing :
  forall k s,
    (In (k, s) TOKEN_RESERVED_NAMES -> round_trips k s) /\
    (In (k, s) TOKEN_SYMBOLS ->
     k <> StringMark -> k <> CharMark -> k <> Dot ->
     tokenizes_to s []).
Proof.
  intros k s. split.
  - intros Hin. simpl in Hin.
    repeat (destruct Hin as [Hin|Hin];
            [injection Hin as <- <-; solve_round_trip|]).
    contradiction.
  - intros Hin Hs Hc Hd. simpl in Hin.
    repeat (destruct Hin as [Hin|Hin];
            [injection Hin as <- <-;
             first [congruence | run_lexer 1]|]).
    contradiction.
Qed.

Lemma reserved_words_round_trip_symbols_yield_nothing_witness :
  round_trips If "if" /\ tokenizes_to ">>=" [].
Proof.
  split.
  - apply (proj1 (reserved_words_round_trip_symbols_yield_nothing If "if")).
    simpl. auto.
  - apply (proj2 (reserved_words_round_trip_symbols_yield_nothing
                    BitwiseRightShiftAssign ">>=")).
    + simpl. do 32 right. left. reflexivity.
    + discriminate.
    + discriminate.
    + discriminate.
Defined.

(** C2, as stated, fails: [>>=] does not give one
    [BitwiseRightShiftAssign] token and [a>>=3] does not give the three
    tokens of the claim. *)
Lemma shift_assign_not_emitted :
  ~ (tokenizes_to ">>=" [token BitwiseRightShiftAssign 0 3] /\
     tokenizes_to "a>>=3" [token Identifier 0 1;
                           token BitwiseRightShiftAssign 1 3;
                           token IntegerConstant 4 1]).
Proof.
  intros [Hone _].
  assert (Hnone : tokenizes_to ">>=" []) by run_lexer 1.
  pose proof (tokenizes_to_functional _ _ _ Hone Hnone) as Heq.
  discriminate Heq.
Qed.

(** C2, amended: tokenizing [>>=] gives no token at all (so never three
    single-character tokens), and tokenizing [a>>=3] gives exactly the two
    tokens Identifier(a), IntegerConstant(3) in that order, the operator
    run between them being skipped. *)
Theorem shift_assign_skipped :
  tokenizes_to ">>=" [] /\
  tokenizes_to "a>>=3" [token Identifier 0 1; token IntegerConstant 4 1] /\
  token_text "a>>=3" (token Identifier 0 1) = Ok "a" /\
  token_text "a>>=3" (token IntegerConstant 4 1) = Ok "3".
Proof.
  split; [run_lexer 1|].
  split; [run_lexer 3|].
  split; reflexivity.
Qed.

(** C3 fails on the code: when the first byte of the input is no literal
    starter, not alphanumeric and not white (such as [.], [@] or [#]), a body
    of the scanning loop leaves context and cursor as they were, and the
    tokenizer never returns. *)
Theorem tokenizer_diverges_on_unclassified_byte :
  forall c rest,
    is_constant c = false -> is_alphanum c = false -> is_white c = false ->
    (forall lexer,
       let buf := list_ascii_of_string (String c rest) in
       lexer_step buf lexer 0 (List.length buf) = Ok (Some (lexer, 0))) /\
    diverges (String c rest).
Proof.
  intros c rest Hconst Halnum Hwhite. split.
  - intros lexer buf. subst buf.
    apply (lexer_step_stalls _ lexer 0 c); auto.
  - intros fuel. unfold lexer_tokenize_text.
    apply (tokenize_loop_stalls fuel _ _ 0 c); auto.
Qed.

Lemma tokenizer_diverges_on_unclassified_byte_witness :
  diverges "@".
Proof.
  apply (tokenizer_diverges_on_unclassified_byte "@"%char EmptyString);
    reflexivity.
Defined.

Example dot_diverges : diverges ".".
Proof. intros fuel. apply (tokenize_loop_stalls fuel _ _ 0 "."%char); reflexivity. Qed.

Example hash_diverges : diverges "#".
Proof. intros fuel. apply (tokenize_loop_stalls fuel _ _ 0 "#"%char); reflexivity. Qed.

Example stall_after_a_token : diverges "x = y.z".
Proof.
  intros fuel. unfold lexer_tokenize_text.
  destruct fuel as [|[|[|fuel]]]; try reflexivity.
  do 3 (erewrite tokenize_loop_body; [|reflexivity|vm_compute; reflexivity]).
  exact (tokenize_loop_stalls fuel (list_ascii_of_string "x = y.z") _ 5
           "."%char eq_refl eq_refl eq_refl eq_refl).
Qed.

(** C4 fails on the code: for a character literal with no closing quote
    before the end of the buffer, [lexer_parse_char_literal] never takes its
    missing-terminator branch.  The view it builds ends one byte past the
    buffer, so a lone quote at the end is taken for an empty literal and the
    returned cursor is one past the end of the buffer, and any longer
    unterminated literal makes the counting loop read past the buffer. *)
Theorem unterminated_char_literal_overruns :
  forall lexer buf begin,
    nth_error buf begin = Some "'"%char ->
    (forall i, begin < i < List.length buf ->
       nth_error buf i <> Some "'"%char) ->
    lexer_parse_char_literal lexer buf begin (List.length buf) =
      if S begin =? List.length buf
      then Ok (lexer, S (List.length buf))
      else Fail OutOfBounds.
Proof.
  intros lexer buf begin Hq Hnone.
  assert (Hlt : begin < List.length buf) by (apply nth_error_Some; congruence).
  unfold lexer_parse_char_literal.
  destruct (begin =? List.length buf) eqn:E; [apply Nat.eqb_eq in E; lia|].
  rewrite (find_if_here buf begin (List.length buf) _ "'"%char Hlt Hq eq_refl).
  cbn [bind]. rewrite E. cbn [negb assert bind].
  destruct (find_if_inside buf (S begin) (List.length buf)
              (fun c => Ascii.eqb c "'"%char))
    as [p [Hp [Hrange [_ Hat]]]]; try lia.
  assert (Hpe : p = List.length buf).
  { destruct (Nat.eq_dec p (List.length buf)) as [|Hne]; [assumption|].
    destruct Hat as [c [Hc Hpred]]; [lia|].
    apply Ascii.eqb_eq in Hpred. subst c.
    exfalso. apply (Hnone p); [lia|assumption]. }
  rewrite Hp. cbn [bind]. subst p.
  unfold sv_end, sv_begin. cbn [sv_data sv_size].
  replace (begin + (S (List.length buf) - begin)) with (S (List.length buf))
    by lia.
  destruct (S (List.length buf) =? List.length buf) eqn:E1;
    [apply Nat.eqb_eq in E1; lia|].
  destruct (S begin =? List.length buf) eqn:E2.
  - apply Nat.eqb_eq in E2.
    replace (S (List.length buf) - begin) with 2 by lia. reflexivity.
  - apply Nat.eqb_neq in E2.
    destruct (S (List.length buf) - begin =? 2) eqn:E3;
      [apply Nat.eqb_eq in E3; lia|].
    rewrite count_chars_overrun; [reflexivity|lia|lia].
Qed.

Lemma unterminated_char_literal_overruns_witness :
  lexer_parse_char_literal (mk_lexer []) (list_ascii_of_string "'") 0 1 =
    Ok (mk_lexer [], 2).
Proof.
  apply (unterminated_char_literal_overruns
           (mk_lexer []) (list_ascii_of_string "'") 0).
  - reflexivity.
  - simpl. intros i Hi. lia.
Defined.

Example lone_quote_faults : faults_with "'" OutOfBounds.
Proof. apply (faulted_with 2). vm_compute. reflexivity. Qed.

Example unterminated_literal_faults : faults_with "'ab" OutOfBounds.
Proof. apply (faulted_with 1). vm_compute. reflexivity. Qed.

(** ** A character literal that is closed *)

Lemma count_chars_inside :
  forall n buf p count,
    p + n <= List.length buf ->
    exists k, count_chars n buf p count = Ok k.
Proof.
  induction n as [|n IH]; intros buf p count Hin.
  - exists count. reflexivity.
  - cbn [count_chars].
    destruct (deref_inside buf p) as [c [_ Hd]]; [lia|].
    rewrite Hd. cbn [bind].
    destruct (Ascii.eqb c "\"%char); apply IH; lia.
Qed.

(** [find_if] returns the first position of the range whose byte satisfies
    the predicate. *)
Lemma find_if_first :
  forall buf first last pred q c,
    first <= q < last -> last <= List.length buf ->
    nth_error buf q = Some c -> pred c = true ->
    (forall i c', first <= i < q -> nth_error buf i = Some c' ->
       pred c' = false) ->
    find_if buf first last pred = Ok q.
Proof.
  intros buf first last pred q c Hq Hin Hc Hp Hbefore.
  destruct (find_if_inside buf first last pred)
    as [p [Hrun [Hrange [Hnot Hat]]]]; try lia.
  rewrite Hrun. f_equal.
  destruct (Nat.lt_trichotomy p q) as [Hlt|[Heq|Hgt]]; [|exact Heq|].
  - destruct Hat as [c' [Hc' Hp']]; [lia|].
    rewrite (Hbefore p c') in Hp'; [discriminate|lia|assumption].
  - destruct (Hnot q) as [c' [Hc' Hp']]; [lia|]. congruence.
Qed.

(** What [lexer_parse_char_literal] does on a literal whose opening quote
    is at [begin] and whose closing quote is at [last]: closed at the last
    byte of the buffer it is taken for unterminated and dropped; otherwise
    the empty literal is skipped and any other is added as one
    [CharConstant] over both quotes. *)
Lemma lexer_parse_char_literal_closed :
  forall lexer buf begin last,
    nth_error buf begin = Some "'"%char ->
    begin < last ->
    nth_error buf last = Some "'"%char ->
    (forall i, begin < i < last -> nth_error buf i <> Some "'"%char) ->
    (S last = List.length buf ->
       exists p,
         lexer_parse_char_literal lexer buf begin (List.length buf) =
           Ok (lexer, p) /\ begin < p <= List.length buf) /\
    (S last < List.length buf -> last = S begin ->
       lexer_parse_char_literal lexer buf begin (List.length buf) =
         Ok (lexer, S last)) /\
    (S last < List.length buf -> S begin < last ->
       lexer_parse_char_literal lexer buf begin (List.length buf) =
         Ok (add_token CharConstant (mk_string_view begin (S last - begin))
               lexer, S last)).
Proof.
  intros lexer buf begin last Hq Hbl Hl Hnone.
  assert (Hll : last < List.length buf) by (apply nth_error_Some; congruence).
  assert (Hfirst :
    find_if buf begin (List.length buf) (fun c => Ascii.eqb c "'"%char) =
      Ok begin).
  { apply (find_if_here buf begin _ _ "'"%char); [lia|assumption|reflexivity]. }
  assert (Hlast :
    find_if buf (S begin) (List.length buf) (fun c => Ascii.eqb c "'"%char) =
      Ok last).
  { apply (find_if_first buf (S begin) _ _ last "'"%char);
      [lia|lia|assumption|reflexivity|].
    intros i c' Hi Hc'. apply Ascii.eqb_neq. intros ->.
    apply (Hnone i); [lia|assumption]. }
  assert (Hprefix :
    lexer_parse_char_literal lexer buf begin (List.length buf) =
      let token := mk_string_view begin (S last - begin) in
      if S last =? List.length buf then
        p <- find_if buf begin (List.length buf) is_white ;; Ok (lexer, p)
      else if S last - begin =? 2 then Ok (lexer, S last)
      else
        char_size_in_bytes <- count_chars (S last - begin - 1) buf (S begin) 0 ;;
        _ <- (if 1 <? char_size_in_bytes then assert true else Ok tt) ;;
        Ok (add_token CharConstant token lexer, S last)).
  { unfold lexer_parse_char_literal.
    destruct (begin =? List.length buf) eqn:E; [apply Nat.eqb_eq in E; lia|].
    rewrite Hfirst. cbn [bind]. rewrite E. cbn [negb assert bind].
    rewrite Hlast. cbn [bind].
    unfold sv_end, sv_begin. cbn [sv_data sv_size].
    replace (begin + (S last - begin)) with (S last) by lia.
    reflexivity. }
  rewrite Hprefix. cbv zeta.
  split; [|split].
  - intros Hend. rewrite Hend, Nat.eqb_refl.
    destruct (find_if_inside buf begin (List.length buf) is_white)
      as [p [Hp [Hrange [Hnot _]]]]; try lia.
    exists p. rewrite Hp. cbn [bind]. split; [reflexivity|].
    split; [|lia].
    destruct (Nat.eq_dec p begin) as [->|]; [|lia].
    exfalso.
    assert (Hw : find_if buf begin (List.length buf) is_white <> Ok begin).
    { unfold find_if.
      destruct (List.length buf <? begin) eqn:El; [discriminate|].
      destruct (List.length buf - begin) as [|n] eqn:En; [lia|].
      cbn [find_if_loop]. unfold deref. rewrite Hq. cbn [bind].
      change (is_white "'"%char) with false. cbv iota.
      destruct (find_if_loop_inside n is_white buf (S begin))
        as [p' [Hp' [Hr' _]]]; [lia|].
      rewrite Hp'. intros Heq. injection Heq as Heq. lia. }
    exact (Hw Hp).
  - intros Hin Hempty.
    destruct (S last =? List.length buf) eqn:E1;
      [apply Nat.eqb_eq in E1; lia|].
    replace (S last - begin) with 2 by lia. reflexivity.
  - intros Hin Hfull.
    destruct (S last =? List.length buf) eqn:E1;
      [apply Nat.eqb_eq in E1; lia|].
    destruct (S last - begin =? 2) eqn:E2; [apply Nat.eqb_eq in E2; lia|].
    destruct (count_chars_inside (S last - begin - 1) buf (S begin) 0)
      as [k Hk]; [lia|].
    rewrite Hk. cbn [bind].
    destruct (1 <? k); reflexivity.
Qed.

(** C5 fails on the code: tokenizing the three bytes ['a'] gives no token.
    Whenever the closing quote of a character literal is the last byte of
    the buffer, the view ends at [end], the literal is taken for an
    unterminated one and no token is added; the same literal followed by a
    space is emitted as one [CharConstant] of three bytes. *)
Theorem char_literal_at_end_of_buffer_dropped :
  tokenizes_to "'a'" [] /\
  tokenizes_to "'a' " [token CharConstant 0 3] /\
  token_text "'a' " (token CharConstant 0 3) = Ok "'a'" /\
  forall lexer buf begin,
    nth_error buf begin = Some "'"%char ->
    S begin < List.length buf ->
    nth_error buf (List.length buf - 1) = Some "'"%char ->
    (forall i, begin < i < List.length buf - 1 ->
       nth_error buf i <> Some "'"%char) ->
    exists p,
      lexer_parse_char_literal lexer buf begin (List.length buf) =
        Ok (lexer, p) /\
      begin < p <= List.length buf.
Proof.
  split; [run_lexer 1|].
  split; [run_lexer 2|].
  split; [reflexivity|].
  intros lexer buf begin Hq Hlen Hl Hnone.
  apply (proj1 (lexer_parse_char_literal_closed lexer buf begin
                  (List.length buf - 1) Hq ltac:(lia) Hl Hnone)).
  lia.
Qed.

Lemma char_literal_at_end_of_buffer_dropped_witness :
  exists p,
    lexer_parse_char_literal (mk_lexer []) (list_ascii_of_string "'a'") 0 3 =
      Ok (mk_lexer [], p) /\
    0 < p <= 3.
Proof.
  apply (proj2 (proj2 (proj2 char_literal_at_end_of_buffer_dropped))
           (mk_lexer []) (list_ascii_of_string "'a'") 0).
  - reflexivity.
  - simpl. lia.
  - reflexivity.
  - simpl. intros i Hi Hc.
    assert (Hi1 : i = 1) by lia. subst i. discriminate Hc.
Defined.

Example char_literal_in_the_middle :
  tokenizes_to "c = 'a';" [token Identifier 0 1; token CharConstant 4 3].
Proof. run_lexer 4. Qed.

(** C6: [42] and [0x1F] are integer constants, [3.14] and [3.14f] are
    float constants; on [0x1.5] the integer rule answers no at the dot
    without any report and the float rule alone decides what
    [lexer_parse_constant] adds (it rejects the run, so nothing is added
    and no integer token is ever made of it). *)
Theorem numeric_classification :
  tokenizes_to "42" [token IntegerConstant 0 2] /\
  tokenizes_to "0x1F" [token IntegerConstant 0 4] /\
  tokenizes_to "3.14" [token FloatConstant 0 4] /\
  tokenizes_to "3.14f" [token FloatConstant 0 5] /\
  (let buf := list_ascii_of_string "0x1.5" in
   is_integer buf 0 3 = Ok true /\
   nth_error buf 3 = Some "."%char /\
   is_integer buf 0 5 = Ok false /\
   (forall lexer,
      lexer_parse_constant lexer buf 0 5 =
        (flt <- is_float buf 0 5 ;;
         Ok (if flt then add_token FloatConstant (mk_string_view 0 5) lexer
             else lexer, 5))) /\
   is_float buf 0 5 = Ok false /\
   tokenizes_to "0x1.5" []).
Proof.
  split; [run_lexer 1|].
  split; [run_lexer 1|].
  split; [run_lexer 1|].
  split; [run_lexer 1|].
  cbv zeta.
  split; [reflexivity|].
  split; [reflexivity|].
  split; [reflexivity|].
  split; [intros lexer; reflexivity|].
  split; [reflexivity|run_lexer 1].
Qed.

(** C9: [iffy] is one [Identifier] token over the whole run and [if] is
    the [If] keyword; whenever the scanning loop stands on a letter or an
    underscore, the loop body takes the maximal alphanumeric run from
    there and adds exactly one token spanning it, whose kind is the
    reserved-word table's kind for exactly that text, or [Identifier] when
    the table does not list that text. *)
Theorem keyword_identifier_boundary :
  tokenizes_to "iffy" [token Identifier 0 4] /\
  tokenizes_to "if" [token If 0 2] /\
  forall lexer buf it c,
    nth_error buf it = Some c -> is_alpha c = true ->
    exists p cs kind,
      lexer_step buf lexer it (List.length buf) =
        Ok (Some (add_token kind (mk_string_view it (p - it)) lexer, p)) /\
      maximal_alphanum_run buf it p /\
      read_view buf (mk_string_view it (p - it)) = Ok cs /\
      keyword_or_identifier (string_of_list_ascii cs) kind.
Proof.
  split; [run_lexer 1|].
  split; [run_lexer 1|].
  intros lexer buf it c Hc Halpha.
  destruct (lexer_parse_identifier_spec lexer buf it c Hc Halpha)
    as [p [cs [kind [Hparse Hrest]]]].
  exists p, cs, kind. split; [|exact Hrest].
  unfold lexer_step, deref. rewrite Hc. simpl.
  assert (Hconst : is_constant c = false).
  { unfold is_alpha in Halpha. unfold is_constant, is_digit, char_ge, char_le in *.
    destruct c as [[] [] [] [] [] [] [] []]; vm_compute in Halpha |- *;
      congruence. }
  rewrite Hconst.
  unfold is_alphanum at 1. rewrite Halpha. simpl.
  rewrite Hparse. reflexivity.
Qed.

Lemma keyword_identifier_boundary_witness :
  let buf := list_ascii_of_string "while(1)" in
  exists p cs kind,
    lexer_step buf (mk_lexer []) 0 (List.length buf) =
      Ok (Some (add_token kind (mk_string_view 0 (p - 0)) (mk_lexer []), p)) /\
    maximal_alphanum_run buf 0 p /\
    read_view buf (mk_string_view 0 (p - 0)) = Ok cs /\
    keyword_or_identifier (string_of_list_ascii cs) kind.
Proof.
  exact (proj2 (proj2 keyword_identifier_boundary)
           (mk_lexer []) (list_ascii_of_string "while(1)") 0 "w"%char
           eq_refl eq_refl).
Defined.

Example while_keyword_then_rest :
  tokenizes_to "while(1)" [token While 0 5; token IntegerConstant 6 1].
Proof. run_lexer 4. Qed.

(** C10: the empty input gives the empty token sequence with no loop body
    run at all, and each scanning routine called with [begin == end]
    returns [end] at once and adds no token. *)
Theorem empty_input_yields_no_token :
  (forall fuel, lexer_tokenize_text fuel EmptyString = Finished []) /\
  tokenizes_to EmptyString [] /\
  (forall lexer buf p,
     lexer_parse_char_literal lexer buf p p = Ok (lexer, p)) /\
  (forall lexer buf p,
     lexer_parse_string_literal lexer buf p p = Ok (lexer, p)) /\
  (forall lexer buf p,
     lexer_parse_constant lexer buf p p = Ok (lexer, p)) /\
  (forall lexer buf p,
     lexer_parse_identifier lexer buf p p = Ok (lexer, p)).
Proof.
  split; [intros [|fuel]; reflexivity|].
  split; [run_lexer 0|].
  repeat split; intros lexer buf p;
    [unfold lexer_parse_char_literal | unfold lexer_parse_string_literal
    | unfold lexer_parse_constant | unfold lexer_parse_identifier];
    rewrite Nat.eqb_refl; reflexivity.
Qed.

End LexerFacts.

(** * Properties of the expression node model *)

Module AstFacts.

Import Ast.

Section NodeFacts.

Context {C : Collaborators}.

(** C8: a [ParenExpr] takes its value category and its type from the inner
    expression, and its span starts at the left parenthesis and ends one
    byte past the right one; around an integer literal it is an rvalue of
    the literal's type. *)
Theorem paren_expr_inherits_from_inner :
  (forall e l r,
     let p := ParenExpr_create e l r in
     expr_class p = ParenExpr /\
     value_kind p = value_kind e /\
     type p = type e /\
     begin_loc p = l /\
     end_loc p = ByteLoc_plus r (ByteLoc_of 1) /\
     source_span p = mk_ByteSpan l (ByteLoc_plus r (ByteLoc_of 1))) /\
  (forall v t s l r,
     let lit := IntegerLiteral_create v t s in
     let p := ParenExpr_create lit l r in
     value_kind lit = RValue /\
     value_kind p = RValue /\
     is_rvalue p = true /\
     type p = t /\
     begin_loc p = l /\
     end_loc p = ByteLoc_plus r (ByteLoc_of 1)).
Proof.
  split.
  - intros e l r p. subst p. repeat split.
  - intros v t s l r lit p. subst p lit. repeat split.
Qed.

(** C7: [ArraySubscriptExpr::create] fails its precondition check, and
    returns no node, when the base's type is not a pointer type or the
    index's type is one; when the base's type is a pointer type and the
    index's is not, it returns a node whose span runs from the base's
    start to one past the right bracket. *)
Theorem array_subscript_create_checks_precondition :
  forall base_expr index_expr vk ty lbracket rbracket,
    (is_pointer_type (type base_expr) = false \/
     is_pointer_type (type index_expr) = true ->
     ArraySubscriptExpr_create base_expr index_expr vk ty lbracket rbracket =
       Fail InvalidPrecondition /\
     forall node,
       ArraySubscriptExpr_create base_expr index_expr vk ty lbracket rbracket
         <> Ok node) /\
    (is_pointer_type (type base_expr) = true ->
     is_pointer_type (type index_expr) = false ->
     exists node,
       ArraySubscriptExpr_create base_expr index_expr vk ty lbracket rbracket =
         Ok node /\
       expr_class node = ArraySubscript /\
       begin_loc node = begin_loc base_expr /\
       end_loc node = ByteLoc_plus rbracket (ByteLoc_of 1) /\
       source_span node =
         mk_ByteSpan (begin_loc base_expr)
                     (ByteLoc_plus rbracket (ByteLoc_of 1))).
Proof.
  intros base_expr index_expr vk0 ty0 lbracket rbracket. split.
  - intros Hbad.
    assert (Hfail :
      ArraySubscriptExpr_create base_expr index_expr vk0 ty0 lbracket rbracket =
        Fail InvalidPrecondition).
    { unfold ArraySubscriptExpr_create.
      destruct (is_pointer_type (type base_expr)) eqn:Hb; [|reflexivity].
      destruct Hbad as [Hbase|Hidx]; [discriminate|].
      rewrite Hidx. reflexivity. }
    split; [exact Hfail|].
    intros node Hok. rewrite Hfail in Hok. discriminate.
  - intros Hbase Hidx. eexists. split.
    + unfold ArraySubscriptExpr_create. rewrite Hbase, Hidx. reflexivity.
    + repeat split.
Qed.

End NodeFacts.

(** The factories on the toy collaborators. *)

Lemma array_subscript_create_checks_precondition_witness :
  ArraySubscriptExpr_create (C := toy_collaborators)
    toy_int_literal toy_int_literal LValue ToyInt 11%N 13%N =
    Fail InvalidPrecondition /\
  exists node,
    ArraySubscriptExpr_create (C := toy_collaborators)
      toy_pointer_operand toy_int_literal LValue ToyInt 11%N 13%N = Ok node /\
    expr_class node = ArraySubscript /\
    begin_loc node = 10%N /\
    end_loc node = 14%N /\
    source_span node = toy_span 10 14.
Proof.
  split.
  - apply (proj1 (array_subscript_create_checks_precondition
                    (C := toy_collaborators)
                    toy_int_literal toy_int_literal LValue ToyInt 11%N 13%N)).
    left. reflexivity.
  - apply (proj2 (array_subscript_create_checks_precondition
                    (C := toy_collaborators)
                    toy_pointer_operand toy_int_literal LValue ToyInt
                    11%N 13%N)); reflexivity.
Defined.

Example paren_around_literal :
  let p := ParenExpr_create (C := toy_collaborators) toy_int_literal 11%N 14%N in
  value_kind p = RValue /\ type p = ToyInt /\
  source_span p = toy_span 11 15.
Proof. repeat split. Qed.

End AstFacts.

(** * Further properties of the tokenizer *)

Module LexerMore.

Import Lexer.
Import LexerFacts.

Local Open Scope string_scope.
Local Open Scope list_scope.
Local Open Scope nat_scope.

(** ** The character classes *)

Ltac by_cases_on_byte c :=
  destruct c as [[] [] [] [] [] [] [] []]; vm_compute; intuition congruence.

Lemma constant_not_white :
  forall c, is_constant c = true -> is_white c = false.
Proof. intros c. by_cases_on_byte c. Qed.

Lemma alphanum_not_white :
  forall c, is_alphanum c = true -> is_white c = false.
Proof. intros c. by_cases_on_byte c. Qed.

Lemma alpha_not_constant :
  forall c, is_alpha c = true -> is_constant c = false.
Proof. intros c. by_cases_on_byte c. Qed.

Lemma white_neither :
  forall c, is_white c = true -> is_constant c = false /\ is_alphanum c = false.
Proof. intros c. by_cases_on_byte c. Qed.

Lemma alphanum_letter :
  forall c, is_constant c = false -> is_alphanum c = true -> is_alpha c = true.
Proof. intros c. by_cases_on_byte c. Qed.

Lemma digit_plain :
  forall c, is_digit c = true ->
    Ascii.eqb c "'"%char = false /\ Ascii.eqb c dquote = false /\
    Ascii.eqb c "x"%char = false /\ Ascii.eqb c "X"%char = false /\
    Ascii.eqb c "."%char = false /\ Ascii.eqb c "f"%char = false /\
    Ascii.eqb c "F"%char = false.
Proof. intros c. by_cases_on_byte c. Qed.

(** ** Iterator algorithms inside the buffer *)

Lemma find_if_skips :
  forall buf first last pred c p,
    first < last -> last <= List.length buf ->
    nth_error buf first = Some c -> pred c = false ->
    find_if buf first last pred = Ok p -> first < p.
Proof.
  intros buf first last pred c p Hlt Hin Hc Hp Hrun.
  destruct (find_if_inside buf first last pred)
    as [p' [Hrun' [Hrange [_ Hat]]]]; try lia.
  rewrite Hrun in Hrun'. injection Hrun' as <-.
  destruct (Nat.eq_dec p first) as [->|]; [|lia].
  destruct (Hat Hlt) as [c' [Hc' Hp']]. congruence.
Qed.

Lemma find_next_token_if_inside :
  forall buf b e pred,
    b <= e -> e <= List.length buf ->
    exists r, find_next_token_if buf b e pred = Ok r /\ next_run buf b e pred r.
Proof.
  intros buf b e pred Hbe Hin. unfold find_next_token_if.
  destruct (find_if_inside buf b e pred)
    as [p1 [Hrun1 [Hrange1 [Hbefore1 Hat1]]]]; try lia.
  destruct (find_if_inside buf p1 e (fun c => negb (pred c)))
    as [p2 [Hrun2 [Hrange2 [Hbefore2 Hat2]]]]; try lia.
  rewrite Hrun1. cbn [bind]. unfold find_if_not. rewrite Hrun2. cbn [bind].
  destruct (p1 =? e) eqn:E; cbn [negb].
  - apply Nat.eqb_eq in E. subst p1. exists None. split; [reflexivity|].
    exact Hbefore1.
  - apply Nat.eqb_neq in E.
    exists (Some (mk_string_view p1 (p2 - p1))). split; [reflexivity|].
    destruct Hat1 as [c1 [Hc1 Hp1]]; [lia|].
    assert (Hp12 : p1 < p2).
    { destruct (Nat.eq_dec p2 p1) as [->|]; [|lia].
      destruct Hat2 as [c2 [Hc2 Hp2]]; [lia|].
      rewrite Hc1 in Hc2. injection Hc2 as <-. rewrite Hp1 in Hp2.
      discriminate Hp2. }
    unfold next_run, sv_end. cbn [sv_data sv_size].
    replace (p1 + (p2 - p1)) with p2 by lia.
    repeat split; try lia; try assumption.
    + intros j Hj. destruct (Hbefore2 j Hj) as [c [Hc Hn]].
      exists c. split; [assumption|]. now apply negb_false_iff in Hn.
    + intros Hlt. destruct (Hat2 Hlt) as [c [Hc Hn]].
      exists c. split; [assumption|]. now apply negb_true_iff in Hn.
Qed.

(** A run that is asked for where it starts is found there. *)
Lemma find_next_token_if_here :
  forall buf b e pred c,
    b < e -> e <= List.length buf ->
    nth_error buf b = Some c -> pred c = true ->
    exists p,
      find_next_token_if buf b e pred = Ok (Some (mk_string_view b (p - b))) /\
      b < p <= e /\
      (forall j, b <= j < p ->
         exists c', nth_error buf j = Some c' /\ pred c' = true) /\
      (p < e -> exists c', nth_error buf p = Some c' /\ pred c' = false).
Proof.
  intros buf b e pred c Hlt Hin Hc Hp.
  destruct (find_next_token_if_inside buf b e pred) as [r [Hrun Hspec]];
    try lia.
  destruct r as [tok|]; cbn [next_run] in Hspec.
  - destruct Hspec as [H1 [H2 [H3 [H4 [H5 H6]]]]].
    assert (Hd : sv_data tok = b).
    { destruct (Nat.eq_dec (sv_data tok) b) as [|Hne]; [assumption|].
      destruct (H4 b) as [c' [Hc' Hp']]; [lia|]. congruence. }
    exists (sv_end tok). rewrite Hrun.
    destruct tok as [d n]. unfold sv_end in *. cbn [sv_data sv_size] in *.
    subst d. replace (b + n - b) with n by lia.
    repeat split; try lia; assumption.
  - destruct (Hspec b) as [c' [Hc' Hp']]; [lia|]. congruence.
Qed.

(** ** What one loop body can do *)

(** A successful call of a scanning routine at [it] moves the cursor
    forward, at most to one past the buffer, and adds either nothing or one
    token that spans exactly the bytes it moved over. *)
Definition scan_result (lexer : LexerContext) (it len : nat)
    (lexer' : LexerContext) (p : nat) : Prop :=
  it < p <= S len /\
  (lexer' = lexer \/
   exists k, lexer' = add_token k (mk_string_view it (p - it)) lexer).

Lemma find_if_bounds :
  forall buf first last pred p,
    first <= last -> last <= List.length buf ->
    find_if buf first last pred = Ok p -> first <= p <= last.
Proof.
  intros buf first last pred p Hle Hin Hrun.
  destruct (find_if_inside buf first last pred) as [p' [Hrun' [Hrange _]]];
    try lia.
  rewrite Hrun in Hrun'. injection Hrun' as <-. exact Hrange.
Qed.

Lemma lexer_parse_char_literal_shape :
  forall lexer buf it lexer' p,
    nth_error buf it = Some "'"%char ->
    lexer_parse_char_literal lexer buf it (List.length buf) = Ok (lexer', p) ->
    scan_result lexer it (List.length buf) lexer' p.
Proof.
  intros lexer buf it lexer' p Hq Hrun.
  assert (Hlt : it < List.length buf) by (apply nth_error_Some; congruence).
  unfold lexer_parse_char_literal in Hrun.
  destruct (it =? List.length buf) eqn:E; [apply Nat.eqb_eq in E; lia|].
  rewrite (find_if_here buf it (List.length buf) _ "'"%char Hlt Hq eq_refl)
    in Hrun.
  cbn [bind] in Hrun. rewrite E in Hrun. cbn [negb assert bind] in Hrun.
  destruct (find_if_inside buf (S it) (List.length buf)
              (fun c => Ascii.eqb c "'"%char)) as [q [Hq' [Hr _]]]; try lia.
  rewrite Hq' in Hrun. cbn [bind] in Hrun.
  unfold sv_end, sv_begin in Hrun. cbn [sv_data sv_size] in Hrun.
  replace (it + (S q - it)) with (S q) in Hrun by lia.
  unfold scan_result.
  destruct (S q =? List.length buf) eqn:E1.
  - destruct (find_if buf it (List.length buf) is_white) as [w|f] eqn:Hw;
      cbn [bind] in Hrun; [|discriminate Hrun].
    injection Hrun as <- <-.
    pose proof (find_if_skips buf it (List.length buf) is_white "'"%char w
                  Hlt (le_n _) Hq eq_refl Hw).
    pose proof (find_if_bounds buf it (List.length buf) is_white w
                  ltac:(lia) (le_n _) Hw).
    split; [lia|left; reflexivity].
  - destruct (S q - it =? 2) eqn:E2.
    + injection Hrun as <- <-. split; [lia|left; reflexivity].
    + destruct (count_chars (S q - it - 1) buf (S it) 0) as [k|f] eqn:Hk;
        cbn [bind] in Hrun; [|discriminate Hrun].
      destruct (1 <? k); cbn [assert bind] in Hrun;
        injection Hrun as <- <-;
        (split; [lia|right; exists CharConstant; reflexivity]).
Qed.

Lemma lexer_parse_string_literal_shape :
  forall lexer buf it lexer' p,
    nth_error buf it = Some dquote ->
    lexer_parse_string_literal lexer buf it (List.length buf) = Ok (lexer', p) ->
    scan_result lexer it (List.length buf) lexer' p.
Proof.
  intros lexer buf it lexer' p Hq Hrun.
  assert (Hlt : it < List.length buf) by (apply nth_error_Some; congruence).
  unfold lexer_parse_string_literal in Hrun.
  destruct (it =? List.length buf) eqn:E; [apply Nat.eqb_eq in E; lia|].
  rewrite (find_if_here buf it (List.length buf) _ dquote Hlt Hq eq_refl)
    in Hrun.
  cbn [bind] in Hrun. rewrite E in Hrun. cbn [negb assert bind] in Hrun.
  destruct (find_if_inside buf (S it) (List.length buf)
              (fun c => Ascii.eqb c dquote)) as [q [Hq' [Hr _]]]; try lia.
  rewrite Hq' in Hrun. cbn [bind] in Hrun.
  unfold sv_end, sv_begin in Hrun. cbn [sv_data sv_size] in Hrun.
  replace (it + (S q - it)) with (S q) in Hrun by lia.
  unfold scan_result.
  destruct (S q =? List.length buf) eqn:E1.
  - destruct (find_if buf it (List.length buf) is_white) as [w|f] eqn:Hw;
      cbn [bind] in Hrun; [|discriminate Hrun].
    injection Hrun as <- <-.
    pose proof (find_if_skips buf it (List.length buf) is_white dquote w
                  Hlt (le_n _) Hq eq_refl Hw).
    pose proof (find_if_bounds buf it (List.length buf) is_white w
                  ltac:(lia) (le_n _) Hw).
    split; [lia|left; reflexivity].
  - destruct (S q - it =? 2) eqn:E2.
    + injection Hrun as <- <-. split; [lia|left; reflexivity].
    + injection Hrun as <- <-.
      split; [lia|right; exists StringConstant; reflexivity].
Qed.

Lemma lexer_parse_constant_shape :
  forall lexer buf it c lexer' p,
    nth_error buf it = Some c -> is_constant c = true ->
    lexer_parse_constant lexer buf it (List.length buf) = Ok (lexer', p) ->
    scan_result lexer it (List.length buf) lexer' p.
Proof.
  intros lexer buf it c lexer' p Hc Hconst Hrun.
  assert (Hlt : it < List.length buf) by (apply nth_error_Some; congruence).
  unfold lexer_parse_constant in Hrun.
  destruct (it =? List.length buf) eqn:E; [apply Nat.eqb_eq in E; lia|].
  unfold find_next_token in Hrun.
  destruct (find_next_token_if_here buf it (List.length buf)
              (fun c0 => negb (is_white c0)) c Hlt (le_n _) Hc)
    as [q [Htok [Hq _]]].
  { rewrite (constant_not_white c Hconst). reflexivity. }
  rewrite Htok in Hrun. cbn [bind value] in Hrun.
  unfold sv_at, deref in Hrun. cbn [sv_data] in Hrun.
  rewrite Nat.add_0_r, Hc in Hrun. cbn [bind] in Hrun.
  destruct (Ascii.eqb c "'"%char) eqn:Ec.
  { apply Ascii.eqb_eq in Ec. subst c.
    exact (lexer_parse_char_literal_shape _ _ _ _ _ Hc Hrun). }
  destruct (Ascii.eqb c dquote) eqn:Ed.
  { apply Ascii.eqb_eq in Ed. subst c.
    exact (lexer_parse_string_literal_shape _ _ _ _ _ Hc Hrun). }
  unfold sv_begin, sv_end in Hrun. cbn [sv_data sv_size] in Hrun.
  replace (it + (q - it)) with q in Hrun by lia.
  unfold scan_result.
  destruct (is_integer buf it q) as [[|]|f]; cbn [bind] in Hrun;
    [| |discriminate Hrun].
  - injection Hrun as <- <-.
    split; [lia|right; exists IntegerConstant; reflexivity].
  - destruct (is_float buf it q) as [[|]|f]; cbn [bind] in Hrun;
      [| |discriminate Hrun]; injection Hrun as <- <-.
    + split; [lia|right; exists FloatConstant; reflexivity].
    + split; [lia|left; reflexivity].
Qed.

(** The three things a loop body that goes on can have done. *)
Lemma lexer_step_shape :
  forall buf lexer it c lexer' it',
    nth_error buf it = Some c ->
    lexer_step buf lexer it (List.length buf) = Ok (Some (lexer', it')) ->
    (unclassified c = false /\
     (scan_result lexer it (List.length buf) lexer' it' \/
      (is_white c = true /\ lexer' = lexer /\
       it < it' < List.length buf))) \/
    (unclassified c = true /\ lexer' = lexer /\ it' = it).
Proof.
  intros buf lexer it c lexer' it' Hc Hrun.
  assert (Hlt : it < List.length buf) by (apply nth_error_Some; congruence).
  unfold lexer_step in Hrun. unfold deref in Hrun. rewrite Hc in Hrun.
  cbn [bind] in Hrun. unfold unclassified.
  destruct (is_constant c) eqn:Hconst.
  { left. split; [reflexivity|left].
    destruct (lexer_parse_constant lexer buf it (List.length buf))
      as [[l1 p1]|f] eqn:Hparse; cbn [bind] in Hrun; [|discriminate Hrun].
    injection Hrun as <- <-.
    exact (lexer_parse_constant_shape _ _ _ _ _ _ Hc Hconst Hparse). }
  destruct (is_alphanum c) eqn:Halnum.
  { left. split; [reflexivity|left].
    assert (Halpha : is_alpha c = true).
    { exact (alphanum_letter c Hconst Halnum). }
    destruct (lexer_parse_identifier_spec lexer buf it c Hc Halpha)
      as [p [cs [kind [Hparse [[Hp _] _]]]]].
    rewrite Hparse in Hrun. cbn [bind] in Hrun. injection Hrun as <- <-.
    split; [lia|right; exists kind; reflexivity]. }
  cbn [negb andb].
  unfold find_next_token in Hrun.
  destruct (find_next_token_if_inside buf it (List.length buf)
              (fun c0 => negb (is_white c0))) as [r [Hr Hspec]]; try lia.
  rewrite Hr in Hrun. cbn [bind] in Hrun.
  destruct r as [tok|]; [|discriminate Hrun].
  injection Hrun as <- <-. cbn [next_run] in Hspec.
  destruct Hspec as [H1 [H2 [H3 [H4 [H5 _]]]]]. unfold sv_begin.
  destruct (is_white c) eqn:Hwhite; cbn [negb].
  - left. split; [reflexivity|right].
    split; [reflexivity|split; [reflexivity|]].
    split; [|lia].
    destruct (Nat.eq_dec (sv_data tok) it) as [Heq|]; [|lia].
    exfalso. destruct (H5 (sv_data tok)) as [c' [Hc' Hp']]; [lia|].
    rewrite Heq, Hc in Hc'. injection Hc' as <-. rewrite Hwhite in Hp'.
    discriminate Hp'.
  - right. split; [reflexivity|split; [reflexivity|]].
    destruct (Nat.eq_dec (sv_data tok) it) as [Heq|Hne]; [assumption|].
    destruct (H4 it) as [c' [Hc' Hp']]; [lia|].
    rewrite Hc in Hc'. injection Hc' as <-. rewrite Hwhite in Hp'.
    discriminate Hp'.
Qed.

(** X1: the classes nest and separate as the dispatch of the scanning loop
    needs: octal digits are digits, digits are hex digits, literal starters
    and alphanumerics; no white byte is a literal starter or alphanumeric;
    an alphanumeric byte that is no literal starter is a letter or an
    underscore; line breaks and every byte of 128 and above belong to no
    class at all. *)
Theorem character_classes :
  forall c,
    (is_octdigit c = true -> is_digit c = true) /\
    (is_digit c = true ->
       is_hexdigit c = true /\ is_alphanum c = true /\ is_constant c = true /\
       is_alpha c = false) /\
    (is_white c = true -> is_constant c = false /\ is_alphanum c = false) /\
    (is_constant c = false -> is_alphanum c = true -> is_alpha c = true) /\
    (c = "010"%char \/ c = "013"%char \/ (128 <= N_of_ascii c)%N ->
       unclassified c = true).
Proof.
  intros c.
  destruct c as [[] [] [] [] [] [] [] []]; vm_compute;
    repeat split; try congruence;
    try (intros [H|[H|H]]; try discriminate H; try reflexivity;
         exfalso; apply H; reflexivity).
Qed.

Lemma character_classes_witness :
  is_digit "7"%char = true /\ is_alpha "_"%char = true /\
  unclassified "010"%char = true.
Proof.
  split; [apply (proj1 (character_classes "7"%char)); reflexivity|].
  split; [apply (proj1 (proj2 (proj2 (proj2 (character_classes "_"%char)))));
          reflexivity|].
  apply (proj2 (proj2 (proj2 (proj2 (character_classes "010"%char))))).
  left. reflexivity.
Defined.

(** X2: over a range inside the buffer [find_next_token] never faults; it
    answers nothing exactly when no byte of the range satisfies the
    predicate, and otherwise the first maximal run of bytes that do: no
    byte before the run satisfies the predicate, every byte of the run
    does, the run is not empty and the byte after it, if the range has
    one, does not. *)
Theorem find_next_token_finds_first_maximal_run :
  forall buf b e pred,
    b <= e -> e <= List.length buf ->
    exists r,
      find_next_token_if buf b e pred = Ok r /\
      next_run buf b e pred r /\
      (r = None <->
       forall j c, b <= j < e -> nth_error buf j = Some c -> pred c = false).
Proof.
  intros buf b e pred Hbe Hin.
  destruct (find_next_token_if_inside buf b e pred Hbe Hin) as [r [Hrun Hspec]].
  exists r. split; [exact Hrun|]. split; [exact Hspec|].
  destruct r as [tok|]; cbn [next_run] in Hspec.
  - split; [discriminate|]. intros Hnone. exfalso.
    destruct Hspec as [H1 [H2 [H3 [_ [H5 _]]]]].
    destruct (H5 (sv_data tok)) as [c [Hc Hp]]; [lia|].
    rewrite (Hnone (sv_data tok) c) in Hp; [discriminate Hp|lia|exact Hc].
  - split; [|reflexivity]. intros _ j c Hj Hc.
    destruct (Hspec j Hj) as [c' [Hc' Hp]]. congruence.
Qed.

Lemma find_next_token_finds_first_maximal_run_witness :
  exists r,
    find_next_token_if (list_ascii_of_string "  ab+c") 0 6
      (fun c => negb (is_white c)) = Ok r /\
    next_run (list_ascii_of_string "  ab+c") 0 6
      (fun c => negb (is_white c)) r /\
    (r = None <->
     forall j c, 0 <= j < 6 ->
       nth_error (list_ascii_of_string "  ab+c") j = Some c ->
       negb (is_white c) = false).
Proof.
  apply (find_next_token_finds_first_maximal_run
           (list_ascii_of_string "  ab+c") 0 6 (fun c => negb (is_white c))).
  - lia.
  - simpl. lia.
Defined.

Example find_next_token_skips_leading_white :
  find_next_token (list_ascii_of_string "  ab+c") 0 6 =
    Ok (Some (mk_string_view 2 2)).
Proof. reflexivity. Qed.

(** ** Progress of the scanning loop *)

Lemma lexer_step_outside :
  forall buf lexer it e,
    List.length buf <= it -> lexer_step buf lexer it e = Fail OutOfBounds.
Proof.
  intros buf lexer it e Hout. unfold lexer_step.
  rewrite deref_outside; [reflexivity|exact Hout].
Qed.

Lemma lexer_step_inside :
  forall buf lexer it e r,
    lexer_step buf lexer it e = Ok r ->
    exists c, nth_error buf it = Some c.
Proof.
  intros buf lexer it e r Hrun.
  destruct (nth_error buf it) as [c|] eqn:Hc; [exists c; reflexivity|].
  apply nth_error_None in Hc.
  rewrite (lexer_step_outside buf lexer it e Hc) in Hrun. discriminate Hrun.
Qed.

(** X3: a body of the scanning loop that goes on has moved the cursor
    strictly forward, at most to one past the end of the buffer, unless the
    byte under the cursor is unclassified; on an unclassified byte it
    always goes on, with the context and the cursor it started from. *)
Theorem loop_body_advances_unless_unclassified :
  forall buf lexer it c,
    nth_error buf it = Some c ->
    (unclassified c = true ->
       lexer_step buf lexer it (List.length buf) = Ok (Some (lexer, it))) /\
    (unclassified c = false ->
       forall lexer' it',
         lexer_step buf lexer it (List.length buf) = Ok (Some (lexer', it')) ->
         it < it' <= S (List.length buf)).
Proof.
  intros buf lexer it c Hc. split.
  - intros Hu. unfold unclassified in Hu.
    apply andb_true_iff in Hu. destruct Hu as [Hu Hwhite].
    apply andb_true_iff in Hu. destruct Hu as [Hconst Halnum].
    apply negb_true_iff in Hconst, Halnum, Hwhite.
    exact (lexer_step_stalls buf lexer it c Hc Hconst Halnum Hwhite).
  - intros Hu lexer' it' Hrun.
    destruct (lexer_step_shape buf lexer it c lexer' it' Hc Hrun)
      as [[_ [[Hrange _]|[_ [_ Hrange]]]]|[Hu' _]]; [exact Hrange|lia|congruence].
Qed.

Lemma loop_body_advances_unless_unclassified_witness :
  lexer_step (list_ascii_of_string "a#") (mk_lexer []) 1 2 =
    Ok (Some (mk_lexer [], 1)) /\
  (forall lexer' it',
     lexer_step (list_ascii_of_string "a#") (mk_lexer []) 0 2 =
       Ok (Some (lexer', it')) -> 0 < it' <= 3).
Proof.
  split.
  - apply (proj1 (loop_body_advances_unless_unclassified
                    (list_ascii_of_string "a#") (mk_lexer []) 1 "#"%char
                    eq_refl)).
    reflexivity.
  - apply (proj2 (loop_body_advances_unless_unclassified
                    (list_ascii_of_string "a#") (mk_lexer []) 0 "a"%char
                    eq_refl)).
    reflexivity.
Defined.

Lemma tokenize_loop_classified_ends :
  forall m buf lexer it,
    (forall c, In c buf -> unclassified c = false) ->
    it <= S (List.length buf) -> S (S (List.length buf)) - it <= m ->
    tokenize_loop m buf lexer it (List.length buf) <> OutOfFuel.
Proof.
  induction m as [|m IH]; intros buf lexer it Hall Hit Hm; [lia|].
  cbn [tokenize_loop].
  destruct (it =? List.length buf) eqn:E; [discriminate|].
  destruct (lexer_step buf lexer it (List.length buf))
    as [[[lexer' it']|]|f] eqn:Hstep; try discriminate.
  destruct (lexer_step_inside _ _ _ _ _ Hstep) as [c Hc].
  assert (Hu : unclassified c = false)
    by (apply Hall; exact (nth_error_In _ _ Hc)).
  assert (Hmove : it < it' <= S (List.length buf)).
  { destruct (lexer_step_shape buf lexer it c lexer' it' Hc Hstep)
      as [[_ [[Hrange _]|[_ [_ Hrange]]]]|[Hu' _]];
      [exact Hrange|lia|congruence]. }
  apply IH; [exact Hall|lia|lia].
Qed.

(** X4: on an input all of whose bytes are classified the tokenizer comes
    to an end, with a token sequence or with a fault, after at most two
    loop bodies more than the input has bytes. *)
Theorem tokenizer_ends_on_classified_input :
  forall text,
    (forall c, In c (list_ascii_of_string text) -> unclassified c = false) ->
    lexer_tokenize_text (S (S (String.length text))) text <> OutOfFuel /\
    ((exists toks, tokenizes_to text toks) \/
     (exists f, faults_with text f)).
Proof.
  intros text Hall.
  assert (Hlen : List.length (list_ascii_of_string text) = String.length text).
  { rewrite <- (string_of_list_ascii_of_string text) at 2.
    symmetry. apply length_string_of_list_ascii. }
  assert (Hend : lexer_tokenize_text (S (S (String.length text))) text
                   <> OutOfFuel).
  { unfold lexer_tokenize_text.
    apply tokenize_loop_classified_ends; [exact Hall|lia|lia]. }
  split; [exact Hend|].
  destruct (lexer_tokenize_text (S (S (String.length text))) text)
    as [toks|f|] eqn:Hrun.
  - left. exists toks. exact (finished_with _ _ _ Hrun).
  - right. exists f. exact (faulted_with _ _ _ Hrun).
  - congruence.
Qed.

Lemma tokenizer_ends_on_classified_input_witness :
  lexer_tokenize_text 8 "x = 'a" <> OutOfFuel /\
  ((exists toks, tokenizes_to "x = 'a" toks) \/
   (exists f, faults_with "x = 'a" f)).
Proof.
  apply (tokenizer_ends_on_classified_input "x = 'a").
  intros c Hin. simpl in Hin.
  repeat (destruct Hin as [<-|Hin]; [reflexivity|]). contradiction.
Defined.

(** ** The shape of the returned token sequence *)

Lemma laid_out_wider :
  forall toks lo hi hi',
    laid_out lo toks hi -> hi <= hi' -> laid_out lo toks hi'.
Proof.
  induction toks as [|t toks IH]; intros lo hi hi' Hl Hle; cbn [laid_out] in *.
  - lia.
  - destruct Hl as [H1 [H2 H3]]. repeat split; try assumption.
    exact (IH _ _ _ H3 Hle).
Qed.

Lemma laid_out_snoc :
  forall toks lo hi k d n,
    laid_out lo toks hi -> hi <= d -> 0 < n ->
    laid_out lo (toks ++ [mk_token k (mk_string_view d n)]) (d + n).
Proof.
  induction toks as [|t toks IH]; intros lo hi k d n Hl Hd Hn;
    cbn [laid_out app] in *.
  - unfold sv_end. cbn [tok_data sv_data sv_size]. repeat split; lia.
  - destruct Hl as [H1 [H2 H3]]. repeat split; try assumption.
    exact (IH _ _ _ _ _ H3 Hd Hn).
Qed.


Lemma tokenize_loop_laid_out :
  forall m buf lexer it toks,
    laid_out 0 (tokens lexer) it ->
    tokenize_loop m buf lexer it (List.length buf) = Finished toks ->
    laid_out 0 toks (List.length buf).
Proof.
  induction m as [|m IH]; intros buf lexer it toks Hl Hrun;
    cbn [tokenize_loop] in Hrun;
    (destruct (it =? List.length buf) eqn:E;
     [apply Nat.eqb_eq in E; injection Hrun as <-; subst it; exact Hl|]).
  - discriminate Hrun.
  - destruct (lexer_step buf lexer it (List.length buf))
      as [[[lexer' it']|]|f] eqn:Hstep; [| |discriminate Hrun].
    + destruct (lexer_step_inside _ _ _ _ _ Hstep) as [c Hc].
      apply (IH buf lexer' it' toks); [|exact Hrun].
      destruct (lexer_step_shape buf lexer it c lexer' it' Hc Hstep)
        as [[_ [[Hrange [->|[k ->]]]|[_ [-> Hrange]]]]|[_ [-> ->]]].
      * apply (laid_out_wider _ _ it); [exact Hl|lia].
      * unfold add_token. cbn [tokens].
        replace it' with (it + (it' - it)) at 2 by lia.
        apply (laid_out_snoc _ _ it); [exact Hl|lia|lia].
      * apply (laid_out_wider _ _ it); [exact Hl|lia].
      * exact Hl.
    + injection Hrun as <-.
      destruct (lexer_step_inside _ _ _ _ _ Hstep) as [c Hc].
      assert (it < List.length buf) by (apply nth_error_Some; congruence).
      apply (laid_out_wider _ _ it); [exact Hl|lia].
Qed.



(** X6: an input made of blanks, tabs and operator or punctuation bytes
    only gives the empty token sequence, whatever its length. *)
Theorem white_input_yields_no_token :
  forall text,
    (forall c, In c (list_ascii_of_string text) -> is_white c = true) ->
    tokenizes_to text [].
Proof.
  intros text Hall. apply (finished_with 1). unfold lexer_tokenize_text.
  destruct (list_ascii_of_string text) as [|c rest] eqn:Hbuf; [reflexivity|].
  rewrite <- Hbuf in *. cbn [tokenize_loop].
  assert (Hc : nth_error (list_ascii_of_string text) 0 = Some c)
    by (rewrite Hbuf; reflexivity).
  assert (Hlt : 0 < List.length (list_ascii_of_string text))
    by (rewrite Hbuf; simpl; lia).
  destruct (0 =? List.length (list_ascii_of_string text)) eqn:E;
    [reflexivity|].
  assert (Hw : is_white c = true) by (apply Hall; rewrite Hbuf; left; reflexivity).
  destruct (white_neither c Hw) as [Hconst Halnum].
  unfold lexer_step, deref. rewrite Hc. cbn [bind].
  rewrite Hconst, Halnum. unfold find_next_token.
  destruct (find_next_token_if_inside (list_ascii_of_string text) 0
              (List.length (list_ascii_of_string text))
              (fun c0 => negb (is_white c0))) as [r [Hr Hspec]]; try lia.
  rewrite Hr. cbn [bind].
  destruct r as [tok|]; [|reflexivity].
  exfalso. cbn [next_run] in Hspec.
  destruct Hspec as [H1 [H2 [H3 [_ [H5 _]]]]].
  destruct (H5 (sv_data tok)) as [c' [Hc' Hp]]; [lia|].
  rewrite (Hall c' (nth_error_In _ _ Hc')) in Hp. discriminate Hp.
Qed.

Lemma white_input_yields_no_token_witness :
  tokenizes_to " <<= (  ) ;" [].
Proof.
  apply (white_input_yields_no_token " <<= (  ) ;").
  intros c Hin. simpl in Hin.
  repeat (destruct Hin as [<-|Hin]; [reflexivity|]). contradiction.
Defined.

(** ** Inputs without quotes *)

Lemma is_integer_loop_inside :
  forall n hex buf it,
    it + n <= List.length buf ->
    exists b, is_integer_loop n hex buf it = Ok b.
Proof.
  induction n as [|n IH]; intros hex buf it Hin; cbn [is_integer_loop].
  - exists true. reflexivity.
  - destruct (deref_inside buf it) as [c [_ Hd]]; [lia|].
    rewrite Hd. cbn [bind].
    destruct (if hex then is_hexdigit c else is_digit c).
    + apply IH. lia.
    + destruct (Ascii.eqb c "."%char); exists false; reflexivity.
Qed.

Lemma is_integer_inside :
  forall buf it e,
    it <= e -> e <= List.length buf ->
    exists b, is_integer buf it e = Ok b.
Proof.
  intros buf it e Hle Hin. unfold is_integer.
  assert (Hprefix : exists hp,
    (if 2 <? e - it then
       c0 <- deref buf it ;;
       if Ascii.eqb c0 "0"%char then
         c1 <- deref buf (S it) ;;
         Ok (Ascii.eqb c1 "x"%char || Ascii.eqb c1 "X"%char)
       else Ok false
     else Ok false) = Ok hp /\ (hp = true -> 2 < e - it)).
  { destruct (2 <? e - it) eqn:E.
    - apply Nat.ltb_lt in E.
      destruct (deref_inside buf it) as [c0 [_ Hd0]]; [lia|].
      destruct (deref_inside buf (S it)) as [c1 [_ Hd1]]; [lia|].
      rewrite Hd0. cbn [bind]. destruct (Ascii.eqb c0 "0"%char).
      + rewrite Hd1. cbn [bind]. eexists. split; [reflexivity|intros _; exact E].
      + exists false. split; [reflexivity|discriminate].
    - exists false. split; [reflexivity|discriminate]. }
  destruct Hprefix as [hp [Hhp Hlen]]. rewrite Hhp. cbn [bind].
  apply is_integer_loop_inside.
  destruct hp; [specialize (Hlen eq_refl)|]; lia.
Qed.

Lemma is_float_loop_inside :
  forall n d f buf it,
    it + n <= List.length buf ->
    exists b, is_float_loop n d f buf it = Ok b.
Proof.
  induction n as [|n IH]; intros d f buf it Hin; cbn [is_float_loop].
  - exists true. reflexivity.
  - destruct ((it =? d) || (it =? f)); [apply IH; lia|].
    destruct (deref_inside buf it) as [c [_ Hd]]; [lia|].
    rewrite Hd. cbn [bind].
    destruct (is_digit c); [apply IH; lia|exists false; reflexivity].
Qed.

Lemma is_float_inside :
  forall buf it e,
    it <= e -> e <= List.length buf ->
    exists b, is_float buf it e = Ok b.
Proof.
  intros buf it e Hle Hin. unfold is_float.
  destruct (find_if_inside buf it e (fun c => Ascii.eqb c "."%char))
    as [d [Hd [Hdr _]]]; try lia.
  destruct (find_if_inside buf d e
              (fun c => Ascii.eqb c "f"%char || Ascii.eqb c "F"%char))
    as [f [Hf [Hfr _]]]; try lia.
  rewrite Hd. cbn [bind]. rewrite Hf. cbn [bind].
  destruct (negb (f =? e) && negb (S f =? e)); [exists false; reflexivity|].
  apply is_float_loop_inside. lia.
Qed.

(** Away from a quote a loop body never faults and never leaves the
    buffer. *)
Lemma lexer_step_plain :
  forall buf lexer it c,
    nth_error buf it = Some c ->
    Ascii.eqb c "'"%char = false -> Ascii.eqb c dquote = false ->
    exists r,
      lexer_step buf lexer it (List.length buf) = Ok r /\
      forall lexer' it', r = Some (lexer', it') -> it' <= List.length buf.
Proof.
  intros buf lexer it c Hc Hq Hdq.
  assert (Hlt : it < List.length buf) by (apply nth_error_Some; congruence).
  unfold lexer_step, deref. rewrite Hc. cbn [bind].
  destruct (is_constant c) eqn:Hconst.
  { unfold lexer_parse_constant.
    destruct (it =? List.length buf) eqn:E; [apply Nat.eqb_eq in E; lia|].
    unfold find_next_token.
    destruct (find_next_token_if_here buf it (List.length buf)
                (fun c0 => negb (is_white c0)) c Hlt (le_n _) Hc)
      as [q [Htok [Hqr _]]].
    { rewrite (constant_not_white c Hconst). reflexivity. }
    rewrite Htok. cbn [bind value].
    unfold sv_at, deref. cbn [sv_data]. rewrite Nat.add_0_r, Hc. cbn [bind].
    rewrite Hq, Hdq.
    unfold sv_begin, sv_end. cbn [sv_data sv_size].
    replace (it + (q - it)) with q by lia.
    destruct (is_integer_inside buf it q) as [bi Hbi]; try lia.
    destruct (is_float_inside buf it q) as [bf Hbf]; try lia.
    rewrite Hbi. cbn [bind]. destruct bi; cbn [bind].
    - eexists. split; [reflexivity|].
      intros l' i' Heq. injection Heq as _ <-. lia.
    - rewrite Hbf. cbn [bind]. destruct bf; cbn [bind];
        (eexists; split; [reflexivity|];
         intros l' i' Heq; injection Heq as _ <-; lia). }
  destruct (is_alphanum c) eqn:Halnum.
  { destruct (lexer_parse_identifier_spec lexer buf it c Hc
                (alphanum_letter c Hconst Halnum))
      as [p [cs [kind [Hparse [[Hp _] _]]]]].
    rewrite Hparse. cbn [bind]. eexists. split; [reflexivity|].
    intros l' i' Heq. injection Heq as _ <-. lia. }
  unfold find_next_token.
  destruct (find_next_token_if_inside buf it (List.length buf)
              (fun c0 => negb (is_white c0))) as [r [Hr Hspec]]; try lia.
  rewrite Hr. cbn [bind]. destruct r as [tok|].
  - eexists. split; [reflexivity|].
    intros l' i' Heq. injection Heq as _ <-.
    cbn [next_run] in Hspec. unfold sv_begin. lia.
  - exists None. split; [reflexivity|discriminate].
Qed.

Lemma tokenize_loop_plain :
  forall m buf lexer it,
    (forall c, In c buf ->
       unclassified c = false /\ Ascii.eqb c "'"%char = false /\
       Ascii.eqb c dquote = false) ->
    it <= List.length buf -> List.length buf - it <= m ->
    exists toks, tokenize_loop m buf lexer it (List.length buf) = Finished toks.
Proof.
  induction m as [|m IH]; intros buf lexer it Hall Hit Hm;
    cbn [tokenize_loop];
    (destruct (it =? List.length buf) eqn:E; [eexists; reflexivity|]);
    apply Nat.eqb_neq in E; [lia|].
  destruct (deref_inside buf it) as [c [Hc _]]; [lia|].
  destruct (Hall c (nth_error_In _ _ Hc)) as [Hu [Hq Hdq]].
  destruct (lexer_step_plain buf lexer it c Hc Hq Hdq) as [r [Hr Hin]].
  rewrite Hr. destruct r as [[lexer' it']|]; [|eexists; reflexivity].
  specialize (Hin lexer' it' eq_refl).
  assert (Hmove : it < it').
  { destruct (lexer_step_shape buf lexer it c lexer' it' Hc Hr)
      as [[_ [[Hrange _]|[_ [_ Hrange]]]]|[Hu' _]]; [lia|lia|congruence]. }
  apply IH; [exact Hall|lia|lia].
Qed.

(** X7: on an input without quote characters all of whose bytes are
    classified the tokenizer returns a token sequence, after at most as
    many loop bodies as the input has bytes: it neither faults nor runs
    on. *)
Theorem tokenizer_returns_on_plain_input :
  forall text,
    (forall c, In c (list_ascii_of_string text) ->
       unclassified c = false /\ c <> "'"%char /\ c <> dquote) ->
    exists toks,
      lexer_tokenize_text (String.length text) text = Finished toks /\
      tokenizes_to text toks.
Proof.
  intros text Hall.
  assert (Hlen : List.length (list_ascii_of_string text) = String.length text).
  { rewrite <- (string_of_list_ascii_of_string text) at 2.
    symmetry. apply length_string_of_list_ascii. }
  destruct (tokenize_loop_plain (String.length text)
              (list_ascii_of_string text) (mk_lexer []) 0) as [toks Hrun].
  - intros c Hin. destruct (Hall c Hin) as [Hu [Hq Hdq]].
    split; [exact Hu|]. split; apply Ascii.eqb_neq; assumption.
  - lia.
  - lia.
  - exists toks. split; [exact Hrun|]. exact (finished_with _ _ _ Hrun).
Qed.

Lemma tokenizer_returns_on_plain_input_witness :
  exists toks,
    lexer_tokenize_text 12 "int x1 = 42;" = Finished toks /\
    tokenizes_to "int x1 = 42;" toks.
Proof.
  apply (tokenizer_returns_on_plain_input "int x1 = 42;").
  intros c Hin. simpl in Hin.
  repeat (destruct Hin as [<-|Hin];
          [split; [reflexivity|split; discriminate]|]).
  contradiction.
Defined.

(** ** Numeric constants *)

Lemma hexdigit_alphanum :
  forall c, is_hexdigit c = true -> is_alphanum c = true.
Proof. intros c. by_cases_on_byte c. Qed.

Lemma digit_hexdigit :
  forall c, is_digit c = true -> is_hexdigit c = true.
Proof. intros c. by_cases_on_byte c. Qed.

Lemma digit_constant :
  forall c, is_digit c = true -> is_constant c = true.
Proof. intros c Hd. unfold is_constant. rewrite Hd. reflexivity. Qed.

Lemma find_if_none :
  forall buf first last pred,
    first <= last -> last <= List.length buf ->
    (forall j c, first <= j < last -> nth_error buf j = Some c ->
       pred c = false) ->
    find_if buf first last pred = Ok last.
Proof.
  intros buf first last pred Hle Hin Hnone.
  destruct (find_if_inside buf first last pred)
    as [p [Hrun [Hrange [_ Hat]]]]; try lia.
  rewrite Hrun. f_equal.
  destruct (Nat.eq_dec p last) as [|Hne]; [assumption|].
  destruct Hat as [c [Hc Hp]]; [lia|].
  rewrite (Hnone p c) in Hp; [discriminate Hp|lia|exact Hc].
Qed.

(** The candidate token of [lexer_parse_constant]: the bytes up to the
    next white byte or the end of the buffer. *)
Lemma find_next_token_run :
  forall buf it p,
    it < p <= List.length buf ->
    (forall j, it <= j < p ->
       exists c, nth_error buf j = Some c /\ is_white c = false) ->
    (p < List.length buf ->
       exists c, nth_error buf p = Some c /\ is_white c = true) ->
    find_next_token buf it (List.length buf) =
      Ok (Some (mk_string_view it (p - it))).
Proof.
  intros buf it p Hp Hrun Hstop.
  destruct (Hrun it) as [c [Hc Hw]]; [lia|].
  destruct (find_next_token_if_here buf it (List.length buf)
              (fun c0 => negb (is_white c0)) c)
    as [q [Htok [Hq [Hin Hat]]]]; try lia; try assumption.
  { rewrite Hw. reflexivity. }
  unfold find_next_token. rewrite Htok.
  assert (Hqp : q = p).
  { destruct (Nat.lt_trichotomy q p) as [Hlt|[Heq|Hgt]]; [|exact Heq|].
    - destruct Hat as [c1 [Hc1 Hw1]]; [lia|].
      destruct (Hrun q) as [c2 [Hc2 Hw2]]; [lia|].
      rewrite Hc1 in Hc2. injection Hc2 as <-. rewrite Hw2 in Hw1.
      discriminate Hw1.
    - destruct (Hin p) as [c1 [Hc1 Hw1]]; [lia|].
      destruct Hstop as [c2 [Hc2 Hw2]]; [lia|].
      rewrite Hc1 in Hc2. injection Hc2 as <-. rewrite Hw2 in Hw1.
      discriminate Hw1. }
  subst q. reflexivity.
Qed.

(** On a run that starts with a digit the loop body is the numeric part
    of [lexer_parse_constant] on exactly that run. *)
Lemma lexer_step_numeric :
  forall buf lexer it p c,
    nth_error buf it = Some c -> is_digit c = true ->
    it < p <= List.length buf ->
    (forall j, it <= j < p ->
       exists c', nth_error buf j = Some c' /\ is_white c' = false) ->
    (p < List.length buf ->
       exists c', nth_error buf p = Some c' /\ is_white c' = true) ->
    lexer_step buf lexer it (List.length buf) =
      (int <- is_integer buf it p ;;
       if int
       then Ok (Some (add_token IntegerConstant (mk_string_view it (p - it))
                        lexer, p))
       else
         flt <- is_float buf it p ;;
         if flt
         then Ok (Some (add_token FloatConstant (mk_string_view it (p - it))
                          lexer, p))
         else Ok (Some (lexer, p))).
Proof.
  intros buf lexer it p c Hc Hd Hp Hrun Hstop.
  destruct (digit_plain c Hd) as [Hq [Hdq _]].
  unfold lexer_step, deref. rewrite Hc. cbn [bind].
  rewrite (digit_constant c Hd).
  unfold lexer_parse_constant.
  destruct (it =? List.length buf) eqn:E; [apply Nat.eqb_eq in E; lia|].
  rewrite (find_next_token_run buf it p Hp Hrun Hstop). cbn [bind value].
  unfold sv_at, deref. cbn [sv_data]. rewrite Nat.add_0_r, Hc. cbn [bind].
  rewrite Hq, Hdq. unfold sv_begin, sv_end. cbn [sv_data sv_size].
  replace (it + (p - it)) with p by lia.
  destruct (is_integer buf it p) as [[|]|f]; cbn [bind]; try reflexivity.
  destruct (is_float buf it p) as [[|]|f]; reflexivity.
Qed.

Lemma is_integer_loop_all :
  forall n (hex : bool) buf it,
    (forall j, it <= j < it + n ->
       exists c, nth_error buf j = Some c /\
                 (if hex then is_hexdigit c else is_digit c) = true) ->
    is_integer_loop n hex buf it = Ok true.
Proof.
  induction n as [|n IH]; intros hex buf it Hall; [reflexivity|].
  cbn [is_integer_loop].
  destruct (Hall it) as [c [Hc Hd]]; [lia|].
  unfold deref. rewrite Hc. cbn [bind]. rewrite Hd.
  apply IH. intros j Hj. apply Hall. lia.
Qed.

Lemma is_integer_loop_dot :
  forall n buf it d,
    it <= d < it + n ->
    (forall j, it <= j < d ->
       exists c, nth_error buf j = Some c /\ is_digit c = true) ->
    nth_error buf d = Some "."%char ->
    is_integer_loop n false buf it = Ok false.
Proof.
  induction n as [|n IH]; intros buf it d Hd Hdigits Hdot; [lia|].
  cbn [is_integer_loop].
  destruct (Nat.eq_dec it d) as [->|Hne].
  - unfold deref. rewrite Hdot. reflexivity.
  - destruct (Hdigits it) as [c [Hc Hdc]]; [lia|].
    unfold deref. rewrite Hc. cbn [bind]. rewrite Hdc.
    apply (IH buf (S it) d); [lia| |exact Hdot].
    intros j Hj. apply Hdigits. lia.
Qed.

(** The hex-prefix test answers no on a run whose second byte is a digit
    or a dot. *)
Lemma no_hex_prefix :
  forall buf it e c0 c1,
    nth_error buf it = Some c0 ->
    (2 < e - it -> nth_error buf (S it) = Some c1) ->
    Ascii.eqb c1 "x"%char = false -> Ascii.eqb c1 "X"%char = false ->
    (if 2 <? e - it then
       c0 <- deref buf it ;;
       if Ascii.eqb c0 "0"%char then
         c1 <- deref buf (S it) ;;
         Ok (Ascii.eqb c1 "x"%char || Ascii.eqb c1 "X"%char)
       else Ok false
     else Ok false) = Ok false.
Proof.
  intros buf it e c0 c1 Hc0 Hc1 Hx HX.
  destruct (2 <? e - it) eqn:E; [|reflexivity].
  apply Nat.ltb_lt in E. unfold deref. rewrite Hc0, (Hc1 E). cbn [bind].
  destruct (Ascii.eqb c0 "0"%char); [|reflexivity].
  cbn [bind]. rewrite Hx, HX. reflexivity.
Qed.

Lemma is_integer_decimal :
  forall buf it p,
    it < p ->
    (forall j, it <= j < p ->
       exists c, nth_error buf j = Some c /\ is_digit c = true) ->
    is_integer buf it p = Ok true.
Proof.
  intros buf it p Hp Hdigits. unfold is_integer.
  destruct (Hdigits it) as [c0 [Hc0 Hd0]]; [lia|].
  assert (Hpre : exists c1,
            (2 < p - it -> nth_error buf (S it) = Some c1) /\
            Ascii.eqb c1 "x"%char = false /\ Ascii.eqb c1 "X"%char = false).
  { destruct (le_lt_dec (p - it) 2) as [Hshort|Hlong].
    - exists "0"%char. split; [lia|split; reflexivity].
    - destruct (Hdigits (S it)) as [c1 [Hc1 Hd1]]; [lia|].
      destruct (digit_plain c1 Hd1) as [_ [_ [Hx [HX _]]]].
      exists c1. split; [intros _; exact Hc1|split; assumption]. }
  destruct Hpre as [c1 [Hc1 [Hx HX]]].
  rewrite (no_hex_prefix buf it p c0 c1 Hc0 Hc1 Hx HX). cbn [bind].
  apply is_integer_loop_all. intros j Hj. apply Hdigits. lia.
Qed.

Lemma is_integer_hex :
  forall buf it p cx,
    it + 2 < p ->
    nth_error buf it = Some "0"%char ->
    nth_error buf (S it) = Some cx ->
    cx = "x"%char \/ cx = "X"%char ->
    (forall j, it + 2 <= j < p ->
       exists c, nth_error buf j = Some c /\ is_hexdigit c = true) ->
    is_integer buf it p = Ok true.
Proof.
  intros buf it p cx Hp H0 Hx Hcx Hhex. unfold is_integer.
  destruct (2 <? p - it) eqn:E; [|apply Nat.ltb_ge in E; lia].
  unfold deref. rewrite H0. cbn [bind]. rewrite Hx. cbn [bind].
  assert (Hpre : Ascii.eqb cx "x"%char || Ascii.eqb cx "X"%char = true).
  { destruct Hcx as [->| ->]; reflexivity. }
  rewrite Hpre. cbn [bind].
  apply is_integer_loop_all. intros j Hj. apply Hhex. lia.
Qed.

(** X8: a run of decimal digits, or of [0x] or [0X] and one or more hex
    digits, that ends at a white byte or at the end of the buffer is
    scanned as one [IntegerConstant] token over exactly the run. *)
Theorem integer_run_is_one_integer_constant :
  forall buf lexer it p,
    it < p <= List.length buf ->
    (p < List.length buf ->
       exists c, nth_error buf p = Some c /\ is_white c = true) ->
    (forall j, it <= j < p ->
       exists c, nth_error buf j = Some c /\ is_digit c = true) \/
    (it + 2 < p /\
     nth_error buf it = Some "0"%char /\
     (nth_error buf (S it) = Some "x"%char \/
      nth_error buf (S it) = Some "X"%char) /\
     forall j, it + 2 <= j < p ->
       exists c, nth_error buf j = Some c /\ is_hexdigit c = true) ->
    lexer_step buf lexer it (List.length buf) =
      Ok (Some (add_token IntegerConstant (mk_string_view it (p - it)) lexer,
                p)).
Proof.
  intros buf lexer it p Hp Hstop [Hdec|[Hlen [H0 [Hx Hhex]]]].
  - destruct (Hdec it) as [c [Hc Hd]]; [lia|].
    rewrite (lexer_step_numeric buf lexer it p c Hc Hd Hp); [| |exact Hstop].
    + rewrite (is_integer_decimal buf it p); [reflexivity|lia|exact Hdec].
    + intros j Hj. destruct (Hdec j Hj) as [c' [Hc' Hd']].
      exists c'. split; [exact Hc'|].
      apply constant_not_white. apply digit_constant. exact Hd'.
  - assert (Hxx : exists cx, nth_error buf (S it) = Some cx /\
                             (cx = "x"%char \/ cx = "X"%char)).
    { destruct Hx as [Hx|Hx]; eexists; (split; [exact Hx|]);
        [left|right]; reflexivity. }
    destruct Hxx as [cx [Hcx Hcase]].
    rewrite (lexer_step_numeric buf lexer it p "0"%char H0 eq_refl Hp);
      [| |exact Hstop].
    + rewrite (is_integer_hex buf it p cx); try assumption. reflexivity.
    + intros j Hj.
      destruct (Nat.eq_dec j it) as [->|Hn0].
      { exists "0"%char. split; [exact H0|reflexivity]. }
      destruct (Nat.eq_dec j (S it)) as [->|Hn1].
      { exists cx. split; [exact Hcx|].
        destruct Hcase as [->| ->]; reflexivity. }
      destruct (Hhex j) as [c' [Hc' Hh]]; [lia|].
      exists c'. split; [exact Hc'|].
      apply alphanum_not_white. apply hexdigit_alphanum. exact Hh.
Qed.

Lemma integer_run_is_one_integer_constant_witness :
  lexer_step (list_ascii_of_string "n=0x2A;") (mk_lexer []) 2 7 =
    Ok (Some (add_token IntegerConstant (mk_string_view 2 (6 - 2))
                (mk_lexer []), 6)).
Proof.
  apply (integer_run_is_one_integer_constant
           (list_ascii_of_string "n=0x2A;") (mk_lexer []) 2 6).
  - simpl. lia.
  - intros _. exists ";"%char. split; reflexivity.
  - right. split; [lia|]. split; [reflexivity|]. split; [left; reflexivity|].
    intros j Hj.
    assert (Hcases : j = 4 \/ j = 5) by lia.
    destruct Hcases as [-> | ->]; eexists; split; reflexivity.
Defined.

Lemma is_float_loop_all :
  forall n d f buf it,
    (forall j, it <= j < it + n ->
       j = d \/ j = f \/
       exists c, nth_error buf j = Some c /\ is_digit c = true) ->
    is_float_loop n d f buf it = Ok true.
Proof.
  induction n as [|n IH]; intros d f buf it Hall; [reflexivity|].
  cbn [is_float_loop].
  assert (Hnext : is_float_loop n d f buf (S it) = Ok true).
  { apply IH. intros j Hj. apply Hall. lia. }
  destruct (it =? d) eqn:Ed; [exact Hnext|].
  destruct (it =? f) eqn:Ef; [exact Hnext|]. cbn [orb].
  apply Nat.eqb_neq in Ed, Ef.
  destruct (Hall it) as [Hd|[Hf|[c [Hc Hdc]]]]; [lia|contradiction|contradiction|].
  unfold deref. rewrite Hc. cbn [bind]. rewrite Hdc. exact Hnext.
Qed.

Lemma is_integer_stops_at_dot :
  forall buf it d p,
    it < d -> d < p ->
    (forall j, it <= j < d ->
       exists c, nth_error buf j = Some c /\ is_digit c = true) ->
    nth_error buf d = Some "."%char ->
    is_integer buf it p = Ok false.
Proof.
  intros buf it d p Hid Hdp Hdigits Hdot. unfold is_integer.
  destruct (Hdigits it) as [c0 [Hc0 Hd0]]; [lia|].
  assert (Hpre : exists c1,
            (2 < p - it -> nth_error buf (S it) = Some c1) /\
            Ascii.eqb c1 "x"%char = false /\ Ascii.eqb c1 "X"%char = false).
  { destruct (Nat.eq_dec (S it) d) as [Heq|Hne].
    - exists "."%char. rewrite Heq. split; [intros _; exact Hdot|].
      split; reflexivity.
    - destruct (Hdigits (S it)) as [c1 [Hc1 Hd1]]; [lia|].
      destruct (digit_plain c1 Hd1) as [_ [_ [Hx [HX _]]]].
      exists c1. split; [intros _; exact Hc1|split; assumption]. }
  destruct Hpre as [c1 [Hc1 [Hx HX]]].
  rewrite (no_hex_prefix buf it p c0 c1 Hc0 Hc1 Hx HX). cbn [bind].
  apply (is_integer_loop_dot (p - it) buf it d); [lia|exact Hdigits|exact Hdot].
Qed.

Lemma is_float_digits_dot_digits :
  forall buf it d p,
    it <= d -> d < p -> p <= List.length buf ->
    (forall j, it <= j < d ->
       exists c, nth_error buf j = Some c /\ is_digit c = true) ->
    nth_error buf d = Some "."%char ->
    (forall j, S d <= j < p ->
       exists c, nth_error buf j = Some c /\ is_digit c = true) \/
    (S d < p /\
     (forall j, S d <= j < p - 1 ->
        exists c, nth_error buf j = Some c /\ is_digit c = true) /\
     (nth_error buf (p - 1) = Some "f"%char \/
      nth_error buf (p - 1) = Some "F"%char)) ->
    is_float buf it p = Ok true.
Proof.
  intros buf it d p Hid Hdp Hin Hdigits Hdot Htail. unfold is_float.
  assert (Hdot_it :
    find_if buf it p (fun c => Ascii.eqb c "."%char) = Ok d).
  { apply (find_if_first buf it p _ d "."%char);
      [lia|exact Hin|exact Hdot|reflexivity|].
    intros i c' Hi Hc'. destruct (Hdigits i Hi) as [c'' [Hc'' Hd'']].
    rewrite Hc' in Hc''. injection Hc'' as <-.
    exact (proj1 (proj2 (proj2 (proj2 (proj2 (digit_plain c' Hd'')))))). }
  rewrite Hdot_it. cbn [bind].
  assert (Hnof : forall c, is_digit c = true ->
            Ascii.eqb c "f"%char || Ascii.eqb c "F"%char = false).
  { intros c Hd. destruct (digit_plain c Hd) as [_ [_ [_ [_ [_ [Hf HF]]]]]].
    rewrite Hf, HF. reflexivity. }
  destruct Htail as [Hfrac|[Hlen [Hfrac Hsuffix]]].
  - rewrite (find_if_none buf d p); [|lia|exact Hin|].
    + cbn [bind]. rewrite Nat.eqb_refl. cbn [negb andb].
      apply is_float_loop_all. intros j Hj.
      destruct (Nat.lt_trichotomy j d) as [Hlt|[Heq|Hgt]].
      * right. right. apply Hdigits. lia.
      * left. exact Heq.
      * right. right. apply Hfrac. lia.
    + intros j c Hj Hc.
      destruct (Nat.eq_dec j d) as [->|Hne].
      * rewrite Hdot in Hc. injection Hc as <-. reflexivity.
      * destruct (Hfrac j) as [c' [Hc' Hd']]; [lia|].
        rewrite Hc in Hc'. injection Hc' as <-. exact (Hnof c Hd').
  - assert (Hsuf : exists cf, nth_error buf (p - 1) = Some cf /\
                     Ascii.eqb cf "f"%char || Ascii.eqb cf "F"%char = true).
    { destruct Hsuffix as [H|H]; eexists; (split; [exact H|reflexivity]). }
    destruct Hsuf as [cf [Hcf Hpf]].
    rewrite (find_if_first buf d p _ (p - 1) cf); [|lia|exact Hin|exact Hcf
                                                    |exact Hpf|].
    + cbn [bind]. replace (S (p - 1)) with p by lia.
      rewrite Nat.eqb_refl. rewrite andb_false_r.
      apply is_float_loop_all. intros j Hj.
      destruct (Nat.lt_trichotomy j d) as [Hlt|[Heq|Hgt]].
      * right. right. apply Hdigits. lia.
      * left. exact Heq.
      * destruct (Nat.eq_dec j (p - 1)) as [Hl|Hnl].
        -- right. left. exact Hl.
        -- right. right. apply Hfrac. lia.
    + intros j c Hj Hc.
      destruct (Nat.eq_dec j d) as [->|Hne].
      * rewrite Hdot in Hc. injection Hc as <-. reflexivity.
      * destruct (Hfrac j) as [c' [Hc' Hd']]; [lia|].
        rewrite Hc in Hc'. injection Hc' as <-. exact (Hnof c Hd').
Qed.

(** X9: one or more decimal digits, a dot, any number of decimal digits
    and at most one closing [f] or [F], ending at a white byte or at the
    end of the buffer, are scanned as one [FloatConstant] token over
    exactly the run. *)
Theorem float_run_is_one_float_constant :
  forall buf lexer it d p,
    it < d -> d < p <= List.length buf ->
    (p < List.length buf ->
       exists c, nth_error buf p = Some c /\ is_white c = true) ->
    (forall j, it <= j < d ->
       exists c, nth_error buf j = Some c /\ is_digit c = true) ->
    nth_error buf d = Some "."%char ->
    (forall j, S d <= j < p ->
       exists c, nth_error buf j = Some c /\ is_digit c = true) \/
    (S d < p /\
     (forall j, S d <= j < p - 1 ->
        exists c, nth_error buf j = Some c /\ is_digit c = true) /\
     (nth_error buf (p - 1) = Some "f"%char \/
      nth_error buf (p - 1) = Some "F"%char)) ->
    lexer_step buf lexer it (List.length buf) =
      Ok (Some (add_token FloatConstant (mk_string_view it (p - it)) lexer, p)).
Proof.
  intros buf lexer it d p Hid Hdp Hstop Hdigits Hdot Htail.
  destruct (Hdigits it) as [c [Hc Hd]]; [lia|].
  rewrite (lexer_step_numeric buf lexer it p c Hc Hd); [|lia| |exact Hstop].
  - rewrite (is_integer_stops_at_dot buf it d p); try assumption; try lia.
    cbn [bind].
    rewrite (is_float_digits_dot_digits buf it d p); try assumption; try lia.
    reflexivity.
  - intros j Hj.
    assert (Hdig : forall c', is_digit c' = true -> is_white c' = false).
    { intros c' Hd'. apply constant_not_white, digit_constant. exact Hd'. }
    destruct (Nat.lt_trichotomy j d) as [Hlt|[->|Hgt]].
    + destruct (Hdigits j) as [c' [Hc' Hd']]; [lia|].
      exists c'. split; [exact Hc'|exact (Hdig c' Hd')].
    + exists "."%char. split; [exact Hdot|reflexivity].
    + destruct Htail as [Hfrac|[Hlen [Hfrac Hsuffix]]].
      * destruct (Hfrac j) as [c' [Hc' Hd']]; [lia|].
        exists c'. split; [exact Hc'|exact (Hdig c' Hd')].
      * destruct (Nat.eq_dec j (p - 1)) as [->|Hnl].
        -- destruct Hsuffix as [H|H]; eexists; (split; [exact H|reflexivity]).
        -- destruct (Hfrac j) as [c' [Hc' Hd']]; [lia|].
           exists c'. split; [exact Hc'|exact (Hdig c' Hd')].
Qed.

Lemma float_run_is_one_float_constant_witness :
  lexer_step (list_ascii_of_string "x=2.5f;") (mk_lexer []) 2 7 =
    Ok (Some (add_token FloatConstant (mk_string_view 2 (6 - 2))
                (mk_lexer []), 6)).
Proof.
  apply (float_run_is_one_float_constant
           (list_ascii_of_string "x=2.5f;") (mk_lexer []) 2 3 6).
  - lia.
  - simpl. lia.
  - intros _. exists ";"%char. split; reflexivity.
  - intros j Hj. assert (Hj2 : j = 2) by lia. subst j.
    eexists. split; reflexivity.
  - reflexivity.
  - right. split; [lia|]. split; [|left; reflexivity].
    intros j Hj. assert (Hj4 : j = 4) by lia. subst j.
    eexists. split; reflexivity.
Defined.

Lemma is_integer_loop_stops :
  forall n (hex : bool) buf it m c,
    it <= m < it + n -> it + n <= List.length buf ->
    nth_error buf m = Some c ->
    (if hex then is_hexdigit c else is_digit c) = false ->
    is_integer_loop n hex buf it = Ok false.
Proof.
  induction n as [|n IH]; intros hex buf it m c Hm Hin Hc Hbad; [lia|].
  cbn [is_integer_loop].
  destruct (deref_inside buf it) as [c0 [Hc0 Hd0]]; [lia|].
  rewrite Hd0. cbn [bind].
  destruct (if hex then is_hexdigit c0 else is_digit c0) eqn:Hok.
  - destruct (Nat.eq_dec it m) as [->|Hne].
    + rewrite Hc in Hc0. injection Hc0 as <-. congruence.
    + apply (IH hex buf (S it) m c); [lia|lia|exact Hc|exact Hbad].
  - destruct (Ascii.eqb c0 "."%char); reflexivity.
Qed.

Lemma is_float_loop_stops :
  forall n d f buf it m c,
    it <= m < it + n -> it + n <= List.length buf ->
    nth_error buf m = Some c -> is_digit c = false ->
    m <> d -> m <> f ->
    is_float_loop n d f buf it = Ok false.
Proof.
  induction n as [|n IH]; intros d f buf it m c Hm Hin Hc Hbad Hd Hf; [lia|].
  cbn [is_float_loop].
  assert (Hnext : it <> m -> is_float_loop n d f buf (S it) = Ok false).
  { intros Hne. apply (IH d f buf (S it) m c); try assumption; lia. }
  destruct ((it =? d) || (it =? f)) eqn:Eskip.
  - apply Hnext. intros ->.
    apply orb_true_iff in Eskip.
    destruct Eskip as [E|E]; apply Nat.eqb_eq in E; congruence.
  - destruct (deref_inside buf it) as [c0 [Hc0 Hd0]]; [lia|].
    rewrite Hd0. cbn [bind].
    destruct (is_digit c0) eqn:Hdig; [|reflexivity].
    apply Hnext. intros ->. congruence.
Qed.

(** X10: a run that starts with a digit and holds a letter other than
    [a]-[f], [A]-[F], [x] and [X], or an underscore, is neither an integer
    nor a float: the loop body moves the cursor past the whole run and
    adds no token for it. *)
Theorem malformed_number_is_dropped :
  forall buf lexer it m p c0 cm,
    it < m -> m < p <= List.length buf ->
    (forall j, it <= j < p ->
       exists c, nth_error buf j = Some c /\ is_white c = false) ->
    (p < List.length buf ->
       exists c, nth_error buf p = Some c /\ is_white c = true) ->
    nth_error buf it = Some c0 -> is_digit c0 = true ->
    nth_error buf m = Some cm ->
    is_alpha cm = true -> is_hexdigit cm = false ->
    cm <> "x"%char -> cm <> "X"%char ->
    lexer_step buf lexer it (List.length buf) = Ok (Some (lexer, p)).
Proof.
  intros buf lexer it m p c0 cm Him Hmp Hrun Hstop Hc0 Hd0 Hcm Halpha Hhex
    Hx HX.
  rewrite (lexer_step_numeric buf lexer it p c0 Hc0 Hd0); [|lia|exact Hrun
                                                            |exact Hstop].
  assert (Hnd : is_digit cm = false).
  { destruct (is_digit cm) eqn:E; [|reflexivity].
    rewrite (digit_hexdigit cm E) in Hhex. discriminate Hhex. }
  assert (Hnotdot : Ascii.eqb cm "."%char = false).
  { destruct (Ascii.eqb cm "."%char) eqn:E; [|reflexivity].
    apply Ascii.eqb_eq in E. subst cm. discriminate Halpha. }
  assert (Hnotf : Ascii.eqb cm "f"%char || Ascii.eqb cm "F"%char = false).
  { destruct (Ascii.eqb cm "f"%char) eqn:E1;
      [apply Ascii.eqb_eq in E1; subst cm; discriminate Hhex|].
    destruct (Ascii.eqb cm "F"%char) eqn:E2;
      [apply Ascii.eqb_eq in E2; subst cm; discriminate Hhex|].
    reflexivity. }
  assert (Hint : is_integer buf it p = Ok false).
  { unfold is_integer.
    destruct (2 <? p - it) eqn:E.
    - apply Nat.ltb_lt in E.
      destruct (deref_inside buf (S it)) as [c1 [Hc1 Hd1]]; [lia|].
      unfold deref at 1. rewrite Hc0. cbn [bind].
      destruct (Ascii.eqb c0 "0"%char).
      + rewrite Hd1. cbn [bind].
        destruct (Ascii.eqb c1 "x"%char || Ascii.eqb c1 "X"%char) eqn:Epre.
        * assert (Hm1 : m <> S it).
          { intros ->. rewrite Hcm in Hc1. injection Hc1 as <-.
            apply orb_true_iff in Epre.
            destruct Epre as [E1|E1]; apply Ascii.eqb_eq in E1; congruence. }
          apply (is_integer_loop_stops _ true buf (it + 2) m cm);
            [lia|lia|exact Hcm|exact Hhex].
        * apply (is_integer_loop_stops _ false buf it m cm);
            [lia|lia|exact Hcm|exact Hnd].
      + cbn [bind].
        apply (is_integer_loop_stops _ false buf it m cm);
          [lia|lia|exact Hcm|exact Hnd].
    - cbn [bind].
      apply (is_integer_loop_stops _ false buf it m cm);
        [lia|lia|exact Hcm|exact Hnd]. }
  assert (Hflt : is_float buf it p = Ok false).
  { unfold is_float.
    destruct (find_if_inside buf it p (fun c => Ascii.eqb c "."%char))
      as [d [Hd [Hdr [_ Hdat]]]]; try lia.
    destruct (find_if_inside buf d p
                (fun c => Ascii.eqb c "f"%char || Ascii.eqb c "F"%char))
      as [f [Hf [Hfr [_ Hfat]]]]; try lia.
    rewrite Hd. cbn [bind]. rewrite Hf. cbn [bind].
    destruct (negb (f =? p) && negb (S f =? p)); [reflexivity|].
    apply (is_float_loop_stops _ d f buf it m cm);
      [lia|lia|exact Hcm|exact Hnd| |].
    - intros ->. destruct Hdat as [c [Hc Hp]]; [lia|]. congruence.
    - intros ->. destruct Hfat as [c [Hc Hp]]; [lia|]. congruence. }
  rewrite Hint. cbn [bind]. rewrite Hflt. reflexivity.
Qed.

Lemma malformed_number_is_dropped_witness :
  lexer_step (list_ascii_of_string "12_000 ") (mk_lexer []) 0 7 =
    Ok (Some (mk_lexer [], 6)).
Proof.
  apply (malformed_number_is_dropped
           (list_ascii_of_string "12_000 ") (mk_lexer []) 0 2 6
           "1"%char "_"%char).
  - lia.
  - simpl. lia.
  - intros j Hj.
    assert (Hcases : j = 0 \/ j = 1 \/ j = 2 \/ j = 3 \/ j = 4 \/ j = 5)
      by lia.
    destruct Hcases as [->|[->|[->|[->|[->| ->]]]]];
      eexists; split; reflexivity.
  - intros _. exists " "%char. split; reflexivity.
  - reflexivity.
  - reflexivity.
  - reflexivity.
  - reflexivity.
  - reflexivity.
  - discriminate.
  - discriminate.
Defined.

(** ** Quoted literals *)

(** On a quote the loop body is the literal routine for that quote. *)
Lemma lexer_step_on_quote :
  forall buf lexer it,
    (nth_error buf it = Some "'"%char ->
       lexer_step buf lexer it (List.length buf) =
         (r <- lexer_parse_char_literal lexer buf it (List.length buf) ;;
          Ok (Some r))) /\
    (nth_error buf it = Some dquote ->
       lexer_step buf lexer it (List.length buf) =
         (r <- lexer_parse_string_literal lexer buf it (List.length buf) ;;
          Ok (Some r))).
Proof.
  intros buf lexer it.
  assert (Hboth : forall c,
    nth_error buf it = Some c -> is_constant c = true ->
    lexer_step buf lexer it (List.length buf) =
      (r <- (if Ascii.eqb c "'"%char
             then lexer_parse_char_literal lexer buf it (List.length buf)
             else if Ascii.eqb c dquote
             then lexer_parse_string_literal lexer buf it (List.length buf)
             else lexer_parse_constant lexer buf it (List.length buf)) ;;
       Ok (Some r))).
  { intros c Hc Hconst.
    assert (Hlt : it < List.length buf) by (apply nth_error_Some; congruence).
    unfold lexer_step, deref. rewrite Hc. cbn [bind]. rewrite Hconst.
    destruct (Ascii.eqb c "'"%char) eqn:Eq;
      [|destruct (Ascii.eqb c dquote) eqn:Ed; [|reflexivity]];
      unfold lexer_parse_constant;
      (destruct (it =? List.length buf) eqn:E; [apply Nat.eqb_eq in E; lia|]);
      unfold find_next_token;
      (destruct (find_next_token_if_here buf it (List.length buf)
                   (fun c0 => negb (is_white c0)) c Hlt (le_n _) Hc)
         as [q [Htok _]];
       [rewrite (constant_not_white c Hconst); reflexivity|]);
      rewrite Htok; cbn [bind value]; unfold sv_at, deref; cbn [sv_data];
      rewrite Nat.add_0_r, Hc; cbn [bind]; rewrite Eq; try rewrite Ed;
      reflexivity. }
  split; intros Hc; rewrite (Hboth _ Hc eq_refl); reflexivity.
Qed.

Lemma lexer_parse_string_literal_closed :
  forall lexer buf begin last,
    nth_error buf begin = Some dquote ->
    begin < last ->
    nth_error buf last = Some dquote ->
    (forall i, begin < i < last -> nth_error buf i <> Some dquote) ->
    (S last = List.length buf ->
       exists p,
         lexer_parse_string_literal lexer buf begin (List.length buf) =
           Ok (lexer, p) /\ begin < p <= List.length buf) /\
    (S last < List.length buf -> last = S begin ->
       lexer_parse_string_literal lexer buf begin (List.length buf) =
         Ok (lexer, S last)) /\
    (S last < List.length buf -> S begin < last ->
       lexer_parse_string_literal lexer buf begin (List.length buf) =
         Ok (add_token StringConstant (mk_string_view begin (S last - begin))
               lexer, S last)).
Proof.
  intros lexer buf begin last Hq Hbl Hl Hnone.
  assert (Hll : last < List.length buf) by (apply nth_error_Some; congruence).
  assert (Hfirst :
    find_if buf begin (List.length buf) (fun c => Ascii.eqb c dquote) =
      Ok begin).
  { apply (find_if_here buf begin _ _ dquote); [lia|assumption|reflexivity]. }
  assert (Hlast :
    find_if buf (S begin) (List.length buf) (fun c => Ascii.eqb c dquote) =
      Ok last).
  { apply (find_if_first buf (S begin) _ _ last dquote);
      [lia|lia|assumption|reflexivity|].
    intros i c' Hi Hc'. apply Ascii.eqb_neq. intros ->.
    apply (Hnone i); [lia|assumption]. }
  assert (Hprefix :
    lexer_parse_string_literal lexer buf begin (List.length buf) =
      if S last =? List.length buf then
        p <- find_if buf begin (List.length buf) is_white ;; Ok (lexer, p)
      else if S last - begin =? 2 then Ok (lexer, S last)
      else Ok (add_token StringConstant
                 (mk_string_view begin (S last - begin)) lexer, S last)).
  { unfold lexer_parse_string_literal.
    destruct (begin =? List.length buf) eqn:E; [apply Nat.eqb_eq in E; lia|].
    rewrite Hfirst. cbn [bind]. rewrite E. cbn [negb assert bind].
    rewrite Hlast. cbn [bind].
    unfold sv_end, sv_begin. cbn [sv_data sv_size].
    replace (begin + (S last - begin)) with (S last) by lia.
    reflexivity. }
  rewrite Hprefix.
  split; [|split].
  - intros Hend. rewrite Hend, Nat.eqb_refl.
    destruct (find_if_inside buf begin (List.length buf) is_white)
      as [p [Hp [Hrange _]]]; try lia.
    exists p. rewrite Hp. cbn [bind]. split; [reflexivity|].
    pose proof (find_if_skips buf begin (List.length buf) is_white dquote p
                  ltac:(lia) (le_n _) Hq eq_refl Hp).
    lia.
  - intros Hin Hempty.
    destruct (S last =? List.length buf) eqn:E1;
      [apply Nat.eqb_eq in E1; lia|].
    replace (S last - begin) with 2 by lia. reflexivity.
  - intros Hin Hfull.
    destruct (S last =? List.length buf) eqn:E1;
      [apply Nat.eqb_eq in E1; lia|].
    destruct (S last - begin =? 2) eqn:E2; [apply Nat.eqb_eq in E2; lia|].
    reflexivity.
Qed.

(** X11: a character or string literal whose closing quote is not the
    last byte of the buffer is scanned by one loop body up to just past
    the closing quote, which is the first quote of its kind after the
    opening one whatever comes before it; the empty literal adds no token
    and any other adds one [CharConstant] or [StringConstant] over both
    quotes. *)
Theorem closed_literal_is_one_token :
  forall buf lexer it last q kind,
    (q = "'"%char /\ kind = CharConstant) \/
    (q = dquote /\ kind = StringConstant) ->
    nth_error buf it = Some q ->
    it < last ->
    nth_error buf last = Some q ->
    (forall i, it < i < last -> nth_error buf i <> Some q) ->
    S last < List.length buf ->
    lexer_step buf lexer it (List.length buf) =
      Ok (Some (if last =? S it then lexer
                else add_token kind (mk_string_view it (S last - it)) lexer,
                S last)).
Proof.
  intros buf lexer it last q kind Hkind Hq Hil Hl Hnone Hin.
  destruct Hkind as [[-> ->]|[-> ->]].
  - rewrite (proj1 (lexer_step_on_quote buf lexer it) Hq).
    destruct (lexer_parse_char_literal_closed lexer buf it last Hq Hil Hl Hnone)
      as [_ [Hempty Hfull]].
    destruct (last =? S it) eqn:E.
    + apply Nat.eqb_eq in E. rewrite (Hempty Hin E). reflexivity.
    + apply Nat.eqb_neq in E. rewrite (Hfull Hin ltac:(lia)). reflexivity.
  - rewrite (proj2 (lexer_step_on_quote buf lexer it) Hq).
    destruct (lexer_parse_string_literal_closed lexer buf it last Hq Hil Hl
                Hnone) as [_ [Hempty Hfull]].
    destruct (last =? S it) eqn:E.
    + apply Nat.eqb_eq in E. rewrite (Hempty Hin E). reflexivity.
    + apply Nat.eqb_neq in E. rewrite (Hfull Hin ltac:(lia)). reflexivity.
Qed.

Lemma closed_literal_is_one_token_witness :
  lexer_step (dquote :: list_ascii_of_string "a'b" ++ [dquote; ";"%char])
    (mk_lexer []) 0 6 =
    Ok (Some (add_token StringConstant (mk_string_view 0 5) (mk_lexer []), 5)).
Proof.
  apply (closed_literal_is_one_token
           (dquote :: list_ascii_of_string "a'b" ++ [dquote; ";"%char])
           (mk_lexer []) 0 4 dquote StringConstant).
  - right. split; reflexivity.
  - reflexivity.
  - lia.
  - reflexivity.
  - intros i Hi Hc.
    assert (Hcases : i = 1 \/ i = 2 \/ i = 3) by lia.
    destruct Hcases as [->|[->| ->]]; discriminate Hc.
  - simpl. lia.
Defined.

(** X12: a string literal whose closing quote is the last byte of the
    buffer is taken for an unterminated one: the routine returns without a
    token.  A string literal that is never closed is not noticed either:
    the routine returns the cursor one past the end of the buffer, and
    unless the quote is the last byte it adds a [StringConstant] token
    whose span ends one byte past the buffer. *)
Theorem string_literal_at_end_of_buffer :
  forall lexer buf begin,
    nth_error buf begin = Some dquote ->
    (S begin < List.length buf ->
     nth_error buf (List.length buf - 1) = Some dquote ->
     (forall i, begin < i < List.length buf - 1 ->
        nth_error buf i <> Some dquote) ->
     exists p,
       lexer_parse_string_literal lexer buf begin (List.length buf) =
         Ok (lexer, p) /\ begin < p <= List.length buf) /\
    ((forall i, begin < i < List.length buf ->
        nth_error buf i <> Some dquote) ->
     lexer_parse_string_literal lexer buf begin (List.length buf) =
       Ok (if S begin =? List.length buf then lexer
           else add_token StringConstant
                  (mk_string_view begin (S (List.length buf) - begin)) lexer,
           S (List.length buf))).
Proof.
  intros lexer buf begin Hq.
  assert (Hlt : begin < List.length buf) by (apply nth_error_Some; congruence).
  split.
  - intros Hlen Hl Hnone.
    apply (proj1 (lexer_parse_string_literal_closed lexer buf begin
                    (List.length buf - 1) Hq ltac:(lia) Hl Hnone)).
    lia.
  - intros Hnone. unfold lexer_parse_string_literal.
    destruct (begin =? List.length buf) eqn:E; [apply Nat.eqb_eq in E; lia|].
    rewrite (find_if_here buf begin (List.length buf) _ dquote Hlt Hq eq_refl).
    cbn [bind]. rewrite E. cbn [negb assert bind].
    rewrite (find_if_none buf (S begin) (List.length buf)); [|lia|lia|].
    + cbn [bind]. unfold sv_end, sv_begin. cbn [sv_data sv_size].
      replace (begin + (S (List.length buf) - begin))
        with (S (List.length buf)) by lia.
      destruct (S (List.length buf) =? List.length buf) eqn:E1;
        [apply Nat.eqb_eq in E1; lia|].
      destruct (S begin =? List.length buf) eqn:E2.
      * apply Nat.eqb_eq in E2.
        replace (S (List.length buf) - begin) with 2 by lia. reflexivity.
      * apply Nat.eqb_neq in E2.
        destruct (S (List.length buf) - begin =? 2) eqn:E3;
          [apply Nat.eqb_eq in E3; lia|reflexivity].
    + intros j c Hj Hc. apply Ascii.eqb_neq. intros ->.
      apply (Hnone j); [lia|exact Hc].
Qed.

Lemma string_literal_at_end_of_buffer_witness :
  lexer_parse_string_literal (mk_lexer [])
    (dquote :: list_ascii_of_string "ab") 0 3 =
    Ok (add_token StringConstant (mk_string_view 0 4) (mk_lexer []), 4).
Proof.
  apply (proj2 (string_literal_at_end_of_buffer (mk_lexer [])
                  (dquote :: list_ascii_of_string "ab") 0 eq_refl)).
  intros i Hi Hc.
  assert (Hcases : i = 1 \/ i = 2) by (simpl in Hi; lia).
  destruct Hcases as [->| ->]; discriminate Hc.
Defined.

(** X13: an input whose first byte opens a string literal that is never
    closed makes the tokenizer read past the end of the buffer. *)
Theorem unclosed_string_literal_faults :
  forall rest,
    (forall c, In c (list_ascii_of_string rest) -> c <> dquote) ->
    faults_with (String dquote rest) OutOfBounds.
Proof.
  intros rest Hnone. apply (faulted_with 2). unfold lexer_tokenize_text.
  set (buf := list_ascii_of_string (String dquote rest)).
  assert (Hq : nth_error buf 0 = Some dquote) by reflexivity.
  assert (Hlen : 0 < List.length buf) by (subst buf; simpl; lia).
  assert (Hno : forall i, 0 < i < List.length buf ->
                  nth_error buf i <> Some dquote).
  { intros i Hi Hc. destruct i as [|i]; [lia|].
    subst buf. simpl in Hc. exact (Hnone _ (nth_error_In _ _ Hc) eq_refl). }
  pose proof (proj2 (string_literal_at_end_of_buffer (mk_lexer []) buf 0 Hq)
                Hno) as Hparse.
  assert (Hstep : lexer_step buf (mk_lexer []) 0 (List.length buf) =
            Ok (Some (if 1 =? List.length buf then mk_lexer []
                      else add_token StringConstant
                             (mk_string_view 0 (S (List.length buf) - 0))
                             (mk_lexer []),
                      S (List.length buf)))).
  { rewrite (proj2 (lexer_step_on_quote buf (mk_lexer []) 0) Hq).
    rewrite Hparse. reflexivity. }
  assert (Hne : (0 =? List.length buf) = false) by (apply Nat.eqb_neq; lia).
  rewrite (tokenize_loop_body 1 buf (mk_lexer []) 0 (List.length buf) _ _
             Hne Hstep).
  cbn [tokenize_loop].
  destruct (S (List.length buf) =? List.length buf) eqn:E;
    [apply Nat.eqb_eq in E; lia|].
  rewrite lexer_step_outside; [reflexivity|lia].
Qed.

Lemma unclosed_string_literal_faults_witness :
  faults_with (String dquote "abc") OutOfBounds.
Proof.
  apply (unclosed_string_literal_faults "abc").
  intros c Hin. simpl in Hin.
  repeat (destruct Hin as [<-|Hin]; [discriminate|]). contradiction.
Defined.

(** ** Exact-text comparison and the tables *)

Lemma skipn_nth_cons :
  forall (buf : list ascii) p c,
    nth_error buf p = Some c -> skipn p buf = c :: skipn (S p) buf.
Proof.
  induction buf as [|a buf IH]; intros p c Hc.
  - destruct p; discriminate Hc.
  - destruct p as [|p]; [injection Hc as ->; reflexivity|].
    cbn [nth_error] in Hc. cbn [skipn]. rewrite (IH p c Hc). reflexivity.
Qed.

Lemma read_bytes_firstn :
  forall n buf p,
    p + n <= List.length buf ->
    read_bytes n buf p = Ok (firstn n (skipn p buf)).
Proof.
  induction n as [|n IH]; intros buf p Hin; [reflexivity|].
  cbn [read_bytes].
  destruct (deref_inside buf p) as [c [Hc Hd]]; [lia|].
  rewrite Hd. cbn [bind]. rewrite (IH buf (S p)); [|lia]. cbn [bind].
  rewrite (skipn_nth_cons buf p c Hc). reflexivity.
Qed.

(** X14: over a range inside the buffer [is_token] never faults and
    answers yes exactly when the bytes of the range are the bytes of the
    given text, no more and no fewer. *)
Theorem is_token_is_exact_text_equality :
  forall buf b e name,
    b <= e -> e <= List.length buf ->
    exists answer,
      is_token buf b e name = Ok answer /\
      (answer = true <->
       firstn (e - b) (skipn b buf) = list_ascii_of_string name).
Proof.
  intros buf b e name Hbe Hin.
  assert (Hread : read_view buf (mk_string_view b (e - b)) =
                    Ok (firstn (e - b) (skipn b buf))).
  { unfold read_view. cbn [sv_data sv_size]. apply read_bytes_firstn. lia. }
  assert (Hlen : List.length (firstn (e - b) (skipn b buf)) = e - b).
  { rewrite length_firstn, length_skipn. lia. }
  unfold is_token.
  rewrite (sv_equal_inside buf _ _ name Hread Hlen).
  eexists. split; [reflexivity|].
  rewrite String.eqb_eq. split.
  - intros <-. rewrite list_ascii_of_string_of_list_ascii. reflexivity.
  - intros ->. apply string_of_list_ascii_of_string.
Qed.

Lemma is_token_is_exact_text_equality_witness :
  exists answer,
    is_token (list_ascii_of_string "x<<=1") 1 4 "<<=" = Ok answer /\
    (answer = true <->
     firstn (4 - 1) (skipn 1 (list_ascii_of_string "x<<=1")) =
       list_ascii_of_string "<<=").
Proof.
  apply (is_token_is_exact_text_equality
           (list_ascii_of_string "x<<=1") 1 4 "<<=").
  - lia.
  - simpl. lia.
Defined.

Lemma occurs_in_symbols_spec :
  forall c,
    occurs_in_symbols c = true <->
    exists k s, In (k, s) TOKEN_SYMBOLS /\ In c (list_ascii_of_string s).
Proof.
  intros c. unfold occurs_in_symbols. rewrite existsb_exists. split.
  - intros [[k s] [Hin Hex]]. cbn [snd] in Hex.
    apply existsb_exists in Hex. destruct Hex as [c' [Hc' Heq]].
    apply Ascii.eqb_eq in Heq. subst c'. exists k, s. split; assumption.
  - intros [k [s [Hin Hc]]]. exists (k, s). split; [exact Hin|].
    cbn [snd]. apply existsb_exists. exists c.
    split; [exact Hc|apply Ascii.eqb_refl].
Qed.

(** X15: the bytes [is_special] accepts are exactly the bytes that occur
    in the texts of the symbol table, but for the dot and the two quote
    marks: those three occur in the table and are not special, hence not
    white. *)
Theorem special_bytes_are_the_symbol_bytes :
  forall c,
    (is_special c = true <->
     (c <> "."%char /\ c <> "'"%char /\ c <> dquote /\
      exists k s, In (k, s) TOKEN_SYMBOLS /\ In c (list_ascii_of_string s))) /\
    (c = "."%char \/ c = "'"%char \/ c = dquote ->
     is_white c = false /\
     exists k s, In (k, s) TOKEN_SYMBOLS /\ In c (list_ascii_of_string s)).
Proof.
  intros c. rewrite <- occurs_in_symbols_spec.
  destruct c as [[] [] [] [] [] [] [] []]; vm_compute;
    (split; [split; [intros H; try discriminate H;
                     repeat split; congruence
                    |intros [H1 [H2 [H3 H4]]]; try discriminate H4;
                     try reflexivity; try (exfalso; apply H1; reflexivity);
                     try (exfalso; apply H2; reflexivity);
                     try (exfalso; apply H3; reflexivity)]
            |intros [H|[H|H]]; try discriminate H; split; reflexivity]).
Qed.

Lemma special_bytes_are_the_symbol_bytes_witness :
  is_white "."%char = false /\
  exists k s, In (k, s) TOKEN_SYMBOLS /\ In "."%char (list_ascii_of_string s).
Proof.
  apply (proj2 (special_bytes_are_the_symbol_bytes "."%char)).
  left. reflexivity.
Defined.

(** The kind of a returned token, on an input with operators. *)
Lemma tokenizer_never_emits_symbols_witness :
  scanner_kind (tok_type (token IntegerConstant 10 1)) /\
  ~ In (tok_type (token IntegerConstant 10 1), ">>=") TOKEN_SYMBOLS.
Proof.
  assert (Hrun : tokenizes_to "if (x >>= 2)"
                   [token If 0 2; token Identifier 4 1;
                    token IntegerConstant 10 1]).
  { apply (finished_with 7). vm_compute. reflexivity. }
  destruct (tokenizer_never_emits_symbols "if (x >>= 2)" _ Hrun
              (token IntegerConstant 10 1)) as [Hkind Hnot].
  { right. right. left. reflexivity. }
  split; [exact Hkind|exact (Hnot ">>=")].
Defined.

(** ** What the loop adds and how it can fail *)

Lemma laid_out_count :
  forall toks lo hi, laid_out lo toks hi -> lo + List.length toks <= hi.
Proof.
  induction toks as [|t toks IH]; intros lo hi Hl; cbn [laid_out] in Hl.
  - simpl. lia.
  - destruct Hl as [H1 [H2 H3]]. specialize (IH _ _ H3).
    unfold sv_end in IH. cbn [List.length]. lia.
Qed.

(** X22: a loop body that goes on leaves the tokens already made as they
    are and adds at most one, which starts at the cursor the body started
    from and ends at the cursor it returns; and the tokenizer never
    returns more tokens than the input has bytes. *)
Theorem one_token_per_loop_body_at_most :
  (forall buf lexer it lexer' it',
     lexer_step buf lexer it (List.length buf) = Ok (Some (lexer', it')) ->
     tokens lexer' = tokens lexer \/
     exists t,
       tokens lexer' = tokens lexer ++ [t] /\
       sv_data (tok_data t) = it /\ sv_end (tok_data t) = it' /\ it < it') /\
  (forall text toks,
     tokenizes_to text toks -> List.length toks <= String.length text).
Proof.
  split.
  - intros buf lexer it lexer' it' Hstep.
    destruct (lexer_step_inside _ _ _ _ _ Hstep) as [c Hc].
    destruct (lexer_step_shape buf lexer it c lexer' it' Hc Hstep)
      as [[_ [[Hrange [->|[k ->]]]|[_ [-> _]]]]|[_ [-> _]]];
      try (left; reflexivity).
    right. eexists. split; [reflexivity|].
    unfold sv_end. cbn [tok_data sv_data sv_size]. repeat split; lia.
  - intros text toks [n Hn]. specialize (Hn n (le_n n)).
    assert (Hlen : List.length (list_ascii_of_string text) =
                     String.length text).
    { rewrite <- (string_of_list_ascii_of_string text) at 2.
      symmetry. apply length_string_of_list_ascii. }
    assert (Hl : laid_out 0 toks (List.length (list_ascii_of_string text))).
    { unfold lexer_tokenize_text in Hn.
      apply (tokenize_loop_laid_out n _ (mk_lexer []) 0); [|exact Hn].
      cbn [laid_out tokens]. lia. }
    pose proof (laid_out_count _ _ _ Hl). lia.
Qed.

Lemma one_token_per_loop_body_at_most_witness :
  List.length [token Identifier 0 1; token IntegerConstant 4 1] <=
    String.length "a>>=3".
Proof.
  apply (proj2 one_token_per_loop_body_at_most "a>>=3").
  apply (finished_with 3). vm_compute. reflexivity.
Defined.

Lemma count_chars_fault :
  forall n buf p count f,
    count_chars n buf p count = Fail f -> f = OutOfBounds.
Proof.
  induction n as [|n IH]; intros buf p count f Hrun; [discriminate Hrun|].
  cbn [count_chars] in Hrun. unfold deref in Hrun.
  destruct (nth_error buf p) as [c|]; cbn [bind] in Hrun.
  - destruct (Ascii.eqb c "\"%char); exact (IH _ _ _ _ Hrun).
  - injection Hrun as <-. reflexivity.
Qed.

Lemma lexer_step_fault :
  forall buf lexer it f,
    lexer_step buf lexer it (List.length buf) = Fail f -> f = OutOfBounds.
Proof.
  intros buf lexer it f Hrun.
  destruct (nth_error buf it) as [c|] eqn:Hc.
  2:{ apply nth_error_None in Hc.
      rewrite (lexer_step_outside buf lexer it _ Hc) in Hrun.
      injection Hrun as <-. reflexivity. }
  assert (Hlt : it < List.length buf) by (apply nth_error_Some; congruence).
  destruct (Ascii.eqb c "'"%char) eqn:Eq.
  { apply Ascii.eqb_eq in Eq. subst c.
    rewrite (proj1 (lexer_step_on_quote buf lexer it) Hc) in Hrun.
    unfold lexer_parse_char_literal in Hrun.
    destruct (it =? List.length buf) eqn:E; [apply Nat.eqb_eq in E; lia|].
    rewrite (find_if_here buf it (List.length buf) _ "'"%char Hlt Hc eq_refl)
      in Hrun.
    cbn [bind] in Hrun. rewrite E in Hrun. cbn [negb assert bind] in Hrun.
    destruct (find_if_inside buf (S it) (List.length buf)
                (fun c => Ascii.eqb c "'"%char)) as [q [Hq [Hr _]]]; try lia.
    rewrite Hq in Hrun. cbn [bind] in Hrun.
    unfold sv_end, sv_begin in Hrun. cbn [sv_data sv_size] in Hrun.
    destruct (it + (S q - it) =? List.length buf).
    - destruct (find_if_inside buf it (List.length buf) is_white)
        as [w [Hw _]]; try lia.
      rewrite Hw in Hrun. discriminate Hrun.
    - destruct (S q - it =? 2); [discriminate Hrun|].
      destruct (count_chars (S q - it - 1) buf (S it) 0) as [k|f0] eqn:Hk;
        cbn [bind] in Hrun.
      + destruct (1 <? k); discriminate Hrun.
      + injection Hrun as <-. exact (count_chars_fault _ _ _ _ _ Hk). }
  destruct (Ascii.eqb c dquote) eqn:Ed.
  { apply Ascii.eqb_eq in Ed. subst c.
    rewrite (proj2 (lexer_step_on_quote buf lexer it) Hc) in Hrun.
    unfold lexer_parse_string_literal in Hrun.
    destruct (it =? List.length buf) eqn:E; [apply Nat.eqb_eq in E; lia|].
    rewrite (find_if_here buf it (List.length buf) _ dquote Hlt Hc eq_refl)
      in Hrun.
    cbn [bind] in Hrun. rewrite E in Hrun. cbn [negb assert bind] in Hrun.
    destruct (find_if_inside buf (S it) (List.length buf)
                (fun c => Ascii.eqb c dquote)) as [q [Hq [Hr _]]]; try lia.
    rewrite Hq in Hrun. cbn [bind] in Hrun.
    unfold sv_end, sv_begin in Hrun. cbn [sv_data sv_size] in Hrun.
    destruct (it + (S q - it) =? List.length buf).
    - destruct (find_if_inside buf it (List.length buf) is_white)
        as [w [Hw _]]; try lia.
      rewrite Hw in Hrun. discriminate Hrun.
    - destruct (S q - it =? 2); discriminate Hrun. }
  destruct (lexer_step_plain buf lexer it c Hc Eq Ed) as [r [Hr _]].
  rewrite Hr in Hrun. discriminate Hrun.
Qed.

(** X23: the only way the tokenizer fails is a read outside the buffer:
    the assertions of the literal routines hold and [optional::value] is
    never called on an empty optional, whatever the input. *)
Theorem tokenizer_faults_only_out_of_bounds :
  forall text f, faults_with text f -> f = OutOfBounds.
Proof.
  intros text f [n Hn]. specialize (Hn n (le_n n)).
  unfold lexer_tokenize_text in Hn. revert Hn.
  generalize (mk_lexer []) as lexer. generalize 0 as it.
  induction n as [|n IH]; intros it lexer Hrun; cbn [tokenize_loop] in Hrun;
    (destruct (it =? List.length (list_ascii_of_string text));
     [discriminate Hrun|]).
  - discriminate Hrun.
  - destruct (lexer_step (list_ascii_of_string text) lexer it
                (List.length (list_ascii_of_string text)))
      as [[[lexer' it']|]|f0] eqn:Hstep.
    + exact (IH it' lexer' Hrun).
    + discriminate Hrun.
    + injection Hrun as <-. exact (lexer_step_fault _ _ _ _ Hstep).
Qed.

Lemma tokenizer_faults_only_out_of_bounds_witness :
  faults_with "'ab" OutOfBounds /\ OutOfBounds = OutOfBounds.
Proof.
  assert (Hf : faults_with "'ab" OutOfBounds).
  { apply (faulted_with 1). vm_compute. reflexivity. }
  split; [exact Hf|].
  exact (tokenizer_faults_only_out_of_bounds "'ab" OutOfBounds Hf).
Defined.

End LexerMore.

(** * Further properties of the expression node model *)

Module AstMore.

Import Ast.

Section NodeMore.

Context {C : Collaborators}.

Lemma downcasts_by_tag :
  forall tag e, expr_class e = tag -> downcasts_only_to tag e.
Proof.
  intros tag e Htag tag' classof Hin. unfold get_as. rewrite Htag.
  cbn [variant_classofs In] in Hin.
  repeat (destruct Hin as [Hin|Hin]; [injection Hin as <- <-; reflexivity|]).
  contradiction.
Qed.

(** X16: a node made by a factory downcasts with [get_as] to the variant
    of that factory, where it is the node itself, and to no other variant. *)
Theorem factory_nodes_downcast_to_their_variant_only :
  (forall v t s,
     downcasts_only_to IntegerLiteral (IntegerLiteral_create v t s)) /\
  (forall v k t s,
     downcasts_only_to CharacterConstant (CharacterConstant_create v k t s)) /\
  (forall t d k w locs rq node,
     StringLiteral_create t d k w locs rq = Ok node ->
     downcasts_only_to StringLiteral node) /\
  (forall e l r, downcasts_only_to ParenExpr (ParenExpr_create e l r)) /\
  (forall b i vk t lb rb node,
     ArraySubscriptExpr_create b i vk t lb rb = Ok node ->
     downcasts_only_to ArraySubscript node) /\
  (forall vk t ck e,
     downcasts_only_to ImplicitCast (ImplicitCastExpr_create vk t ck e)).
Proof.
  repeat split; intros.
  - apply downcasts_by_tag. reflexivity.
  - apply downcasts_by_tag. reflexivity.
  - apply downcasts_by_tag.
    unfold StringLiteral_create in H.
    destruct locs as [|l0 locs]; [discriminate H|].
    cbn in H. injection H as <-. reflexivity.
  - apply downcasts_by_tag. reflexivity.
  - apply downcasts_by_tag.
    unfold ArraySubscriptExpr_create in H.
    destruct (is_pointer_type (type b)); [|discriminate H].
    destruct (is_pointer_type (type i)); [discriminate H|].
    cbn in H. injection H as <-. reflexivity.
  - apply downcasts_by_tag. reflexivity.
Qed.

(** X17: [StringLiteral::create] fails its precondition check when it is
    given no source location; given at least one it returns an lvalue node
    of the given type whose span runs from the first location to one past
    the closing quote, and whose bytes [string_as_utf8] hands out only when
    the character width is one byte. *)
Theorem string_literal_create_needs_a_location :
  forall t d k w locs rq,
    (locs = [] ->
     StringLiteral_create t d k w locs rq = Fail InvalidPrecondition) /\
    (forall l0 rest, locs = l0 :: rest ->
     exists node,
       StringLiteral_create t d k w locs rq = Ok node /\
       value_kind node = LValue /\ is_lvalue node = true /\
       type node = t /\
       begin_loc node = l0 /\
       end_loc node = ByteLoc_plus rq (ByteLoc_of 1) /\
       str_kind node = Some k /\
       byte_length node = Some (N.of_nat (List.length d)) /\
       string_as_utf8 node =
         Some (if N.eqb w 1 then Ok d else Fail InvalidPrecondition)).
Proof.
  intros t d k w locs rq. split.
  - intros ->. reflexivity.
  - intros l0 rest ->. eexists. split; [reflexivity|].
    repeat split. cbn. destruct (N.eqb w 1); reflexivity.
Qed.

(** X18: implicit casts are not written in the source: under any number
    of them an expression keeps its span, and the outermost cast carries
    the value category, type and cast kind it was made with and hands back
    its operand. *)
Theorem implicit_casts_keep_the_span :
  (forall casts e, source_span (implicit_casts casts e) = source_span e) /\
  (forall vk t ck e,
     let cast := ImplicitCastExpr_create vk t ck e in
     value_kind cast = vk /\ type cast = t /\
     cast_kind cast = Some ck /\ operand_expr cast = Some e /\
     source_span cast = source_span e).
Proof.
  split.
  - induction casts as [|[[vk0 t0] ck0] casts IH]; intros e; [reflexivity|].
    cbn [implicit_casts]. rewrite IH. reflexivity.
  - intros vk0 t0 ck0 e cast. subst cast. repeat split.
Qed.

Lemma parenthesize_snoc :
  forall parens e l r,
    parenthesize (parens ++ [(l, r)]) e =
      ParenExpr_create (parenthesize parens e) l r.
Proof.
  induction parens as [|[l0 r0] parens IH]; intros e l r; [reflexivity|].
  cbn [parenthesize app]. apply IH.
Qed.

(** X19: however many pairs of parentheses are put around an expression,
    the result has the value category and the type of that expression; its
    span is that of the outermost pair, and [sub_expr] and the two location
    accessors of a [ParenExpr] give back what it was made from. *)
Theorem parentheses_keep_category_and_type :
  (forall parens e,
     value_kind (parenthesize parens e) = value_kind e /\
     type (parenthesize parens e) = type e) /\
  (forall parens e l r,
     source_span (parenthesize (parens ++ [(l, r)]) e) =
       mk_ByteSpan l (ByteLoc_plus r (ByteLoc_of 1))) /\
  (forall e l r,
     sub_expr (ParenExpr_create e l r) = Some e /\
     open_paren_loc (ParenExpr_create e l r) = Some l /\
     close_paren_loc (ParenExpr_create e l r) = Some r).
Proof.
  split; [|split].
  - induction parens as [|[l r] parens IH]; intros e; [split; reflexivity|].
    cbn [parenthesize]. destruct (IH (ParenExpr_create e l r)) as [Hv Ht].
    rewrite Hv, Ht. split; reflexivity.
  - intros parens e l r. rewrite parenthesize_snoc. reflexivity.
  - intros e l r. repeat split.
Qed.

(** X20: every node is an lvalue or an rvalue and never both; integer
    literals and character constants are rvalues whose stored value is the
    given one reduced to 64 and to 32 bits, so unchanged when it fits; a
    subscript node gives back its base, its index and the location of its
    left bracket, with the value category and type it was made with. *)
Theorem value_categories_and_payloads :
  (forall e, is_lvalue e = negb (is_rvalue e)) /\
  (forall v t s,
     is_rvalue (IntegerLiteral_create v t s) = true /\
     value (IntegerLiteral_create v t s) = Some (v mod 2 ^ 64)%N /\
     ((v < 2 ^ 64)%N -> value (IntegerLiteral_create v t s) = Some v)) /\
  (forall v k t s,
     is_rvalue (CharacterConstant_create v k t s) = true /\
     char_kind (CharacterConstant_create v k t s) = Some k /\
     ((v < 2 ^ 32)%N ->
      char_value (CharacterConstant_create v k t s) = Some v)) /\
  (forall b i vk t lb rb node,
     ArraySubscriptExpr_create b i vk t lb rb = Ok node ->
     base_expr node = Some b /\ index_expr node = Some i /\
     open_bracket_loc node = Some lb /\
     value_kind node = vk /\ type node = t /\
     is_pointer_type (type b) = true /\ is_pointer_type (type i) = false).
Proof.
  split; [|split; [|split]].
  - intros e. unfold is_lvalue, is_rvalue. destruct (value_kind e); reflexivity.
  - intros v t s. split; [reflexivity|]. split; [reflexivity|].
    intros Hv. cbn. unfold wrap64. rewrite N.mod_small; [reflexivity|exact Hv].
  - intros v k t s. split; [reflexivity|]. split; [reflexivity|].
    intros Hv. cbn. unfold wrap32. rewrite N.mod_small; [reflexivity|exact Hv].
  - intros b i vk0 t lb rb node Hrun.
    unfold ArraySubscriptExpr_create in Hrun.
    destruct (is_pointer_type (type b)) eqn:Hb; [|discriminate Hrun].
    destruct (is_pointer_type (type i)) eqn:Hi; [discriminate Hrun|].
    cbn in Hrun. injection Hrun as <-. repeat split.
Qed.

End NodeMore.

Lemma factory_nodes_downcast_to_their_variant_only_witness :
  downcasts_only_to (C := toy_collaborators) ArraySubscript
    (ArraySubscriptExprNode (C := toy_collaborators)
       (mk_Expr (C := toy_collaborators) ArraySubscript LValue ToyInt
                (toy_span 10 14))
       toy_pointer_operand toy_int_literal 11%N).
Proof.
  apply (proj1 (proj2 (proj2 (proj2 (proj2
           (factory_nodes_downcast_to_their_variant_only
              (C := toy_collaborators))))))
           toy_pointer_operand toy_int_literal LValue ToyInt 11%N 13%N).
  reflexivity.
Defined.

Lemma string_literal_create_needs_a_location_witness :
  StringLiteral_create (C := toy_collaborators) (ToyPointer ToyInt)
    [104; 105]%N SkAscii 1 [] 9%N = Fail InvalidPrecondition /\
  exists node,
    StringLiteral_create (C := toy_collaborators) (ToyPointer ToyInt)
      [104; 105]%N SkAscii 1 [6%N] 9%N = Ok node /\
    end_loc node = 10%N /\
    string_as_utf8 node = Some (Ok [104; 105]%N).
Proof.
  split.
  - apply (proj1 (string_literal_create_needs_a_location
                    (C := toy_collaborators) (ToyPointer ToyInt)
                    [104; 105]%N SkAscii 1%N [] 9%N)).
    reflexivity.
  - destruct (proj2 (string_literal_create_needs_a_location
                       (C := toy_collaborators) (ToyPointer ToyInt)
                       [104; 105]%N SkAscii 1%N [6%N] 9%N) 6%N [] eq_refl)
      as [node [Hrun [_ [_ [_ [_ [Hend [_ [_ Hutf]]]]]]]]].
    exists node. split; [exact Hrun|]. split; [exact Hend|exact Hutf].
Defined.

Lemma value_categories_and_payloads_witness :
  value (IntegerLiteral_create (C := toy_collaborators) 42 ToyInt
           (toy_span 0 2)) = Some 42%N.
Proof.
  apply (proj2 (proj2 (proj1 (proj2 (value_categories_and_payloads
                                       (C := toy_collaborators))) 42%N ToyInt
                         (toy_span 0 2)))).
  reflexivity.
Defined.

End AstMore.
